(** * lyrics_adder: a shallow embedding of [lyrics_adder.py]

    The development follows the script top-down: Python string primitives,
    [clean_lyrics], the two lyric providers and [get_raw_lyrics], the ID3 tag
    container and [add_lyrics_to_file], and the scanning half of
    [process_path].  Effects (provider calls, logging, saving) are threaded
    through an explicit event history. *)

From stdpp Require Import gmap list strings.

Open Scope N_scope.
Open Scope list_scope.

(** ** Python [str]

    A Python [str] is a sequence of Unicode code points. *)

Abbreviation pystr := (list N).

(** Literals are written [py "text"]; only ASCII literals occur in the script. *)
Fixpoint py (s : string) : pystr :=
  match s with
  | EmptyString => []
  | String a s' => Ascii.N_of_ascii a :: py s'
  end.

(** Dropping the items that satisfy [p] from the front of a list, and from
    its end. *)
Fixpoint drop_while {A} (p : A → bool) (l : list A) : list A :=
  match l with
  | x :: l' => if p x then drop_while p l' else l
  | [] => []
  end.

Definition drop_while_end {A} (p : A → bool) (l : list A) : list A :=
  reverse (drop_while p (reverse l)).

Definition trim {A} (p : A → bool) (l : list A) : list A :=
  drop_while_end p (drop_while p l).

Module Str.

(** [str.isspace] on one code point (CPython's [_PyUnicode_IsWhitespace]). *)
Definition is_space (c : N) : bool :=
  ((9 <=? c) && (c <=? 13)) || ((28 <=? c) && (c <=? 32))
  || (c =? 133) || (c =? 160) || (c =? 5760)
  || ((8192 <=? c) && (c <=? 8202))
  || (c =? 8232) || (c =? 8233) || (c =? 8239) || (c =? 8287) || (c =? 12288).

(** Line boundaries of [str.splitlines] (CPython's [_PyUnicode_IsLinebreak]). *)
Definition is_linebreak (c : N) : bool :=
  ((10 <=? c) && (c <=? 13)) || ((28 <=? c) && (c <=? 30))
  || (c =? 133) || (c =? 8232) || (c =? 8233).

(** [s.lstrip()] and [s.rstrip()] *)
Definition lstrip (s : pystr) : pystr := drop_while is_space s.

Definition rstrip (s : pystr) : pystr := drop_while_end is_space s.

(** [s.strip()] *)
Definition strip (s : pystr) : pystr := rstrip (lstrip s).

(** [s.startswith(p)] *)
Fixpoint startswith (p s : pystr) : bool :=
  match p, s with
  | [], _ => true
  | a :: p', b :: s' => (a =? b) && startswith p' s'
  | _ :: _, [] => false
  end.

(** [s.endswith(p)] *)
Definition endswith (p s : pystr) : bool := startswith (reverse p) (reverse s).

(** [p in s] *)
Fixpoint contains (p s : pystr) : bool :=
  startswith p s ||
  match s with
  | [] => false
  | _ :: s' => contains p s'
  end.

(** [s.split(sep, 1)] for a non-empty separator: the text before the first
    occurrence and the text after it, or the string alone. *)
Fixpoint split1 (sep s : pystr) : list pystr :=
  if startswith sep s then [[]; drop (length sep) s]
  else match s with
       | [] => [[]]
       | c :: s' =>
           match split1 sep s' with
           | [before; after] => [c :: before; after]
           | _ => [s]
           end
       end.

(** [sep.join(parts)] *)
Fixpoint join (sep : pystr) (parts : list pystr) : pystr :=
  match parts with
  | [] => []
  | [p] => p
  | p :: ps => p ++ sep ++ join sep ps
  end.

(** [s.splitlines()]: [cur] is the line being read, most recent character
    first; a CR LF pair is one boundary, and a final boundary opens no
    further line. *)
Fixpoint splitlines_from (cur : pystr) (s : pystr) : list pystr :=
  match s with
  | [] => match cur with [] => [] | _ => [reverse cur] end
  | c :: s' =>
      if is_linebreak c then
        reverse cur ::
          match s' with
          | d :: s'' =>
              if (c =? 13) && (d =? 10) then splitlines_from [] s''
              else splitlines_from [] s'
          | [] => []
          end
      else splitlines_from (c :: cur) s'
  end.

Definition splitlines (s : pystr) : list pystr := splitlines_from [] s.

End Str.

Definition NL : pystr := [10].

(** ** Unicode data

    [str.lower] and the word class of [re] consult the Unicode database of the
    Python runtime, which is no part of the script: both tables are
    parameters of the model.  [lower] is a function on whole strings because
    Python lower-cases some letters by context. *)

Record Unicode := {
  isalnum : N → bool;        (* [str.isalnum] on one code point *)
  lower : pystr → pystr      (* [str.lower] *)
}.

(** The tables restricted to ASCII, exact on ASCII text. *)
Definition ascii_isalnum (c : N) : bool :=
  ((48 <=? c) && (c <=? 57)) || ((65 <=? c) && (c <=? 90))
  || ((97 <=? c) && (c <=? 122)).

Definition ascii_lower (s : pystr) : pystr :=
  map (λ c, if (65 <=? c) && (c <=? 90) then c + 32 else c) s.

Definition ascii_tables : Unicode :=
  {| isalnum := ascii_isalnum; lower := ascii_lower |}.

(** ** Regular expressions of [clean_lyrics] *)

Module Re.

(** [(?i)[a-z]] on a [str] pattern: the 52 ASCII letters and the four
    code points that case-fold onto them (U+0130, U+0131, U+017F, U+212A). *)
Definition az_ci (c : N) : bool :=
  ((97 <=? c) && (c <=? 122)) || ((65 <=? c) && (c <=? 90))
  || (c =? 304) || (c =? 305) || (c =? 383) || (c =? 8490).

(** [re.fullmatch(r"(?i)[a-z]{2,3}", s)] as a truth value *)
Definition fullmatch_code (s : pystr) : bool :=
  forallb az_ci s && ((length s =? 2)%nat || (length s =? 3)%nat).

(** [n] letters at the head of [s]; the rest of [s] after them *)
Fixpoint letters (n : nat) (s : pystr) : option pystr :=
  match n with
  | O => Some s
  | S n' => match s with
            | c :: s' => if az_ci c then letters n' s' else None
            | [] => None
            end
  end.

(** literal [\|\|] at the head of [s] *)
Definition bars (s : pystr) : option pystr :=
  if Str.startswith (py "||") s then Some (drop 2 s) else None.

(** [[a-z]{2,3}\|\|] at the head of [s]: the greedy quantifier tries three
    letters before two. *)
Definition match_code (s : pystr) : option pystr :=
  match letters 3 s ≫= bars with
  | Some r => Some r
  | None => letters 2 s ≫= bars
  end.

Section WithUnicode.
Variable U : Unicode.

(** [\W]: neither alphanumeric nor the underscore *)
Definition nonword (c : N) : bool := negb (isalnum U c || (c =? 95)).

(** [\W*[a-z]{2,3}\|\|] at the head of [s], by backtracking: the longest run
    of [\W] first, then shorter ones. *)
Fixpoint match_prefix (s : pystr) : option pystr :=
  match s with
  | c :: s' =>
      if nonword c then
        match match_prefix s' with
        | Some r => Some r
        | None => match_code s
        end
      else match_code s
  | [] => match_code []
  end.

(** [re.sub(r"(?i)^\W*[a-z]{2,3}\|\|", "", s)]: the pattern is anchored, so
    at most the match at position 0 is replaced. *)
Definition sub_prefix (s : pystr) : pystr :=
  match match_prefix s with
  | Some r => r
  | None => s
  end.

End WithUnicode.
End Re.

(** ** [clean_lyrics] *)

Section Clean.
Variable U : Unicode.

Definition boilerplate_tags : list pystr :=
  [py "contributors"; py "translations"; py "paroles de la chanson"].

(** The body of the loop up to the tests on [lower]: the value of [line]. *)
Definition rewrite_line (l : pystr) : pystr :=
  let line := Str.strip l in
  let line :=
    if Str.contains (py "||") line then
      match Str.split1 (py "||") line with
      | [prefix; rest] =>
          if Re.fullmatch_code (Str.strip prefix) then Str.strip rest else line
      | _ => line
      end
    else line in
  Str.strip (Re.sub_prefix U line).

(** [for l in lines: ...] with [out] as the list built so far; [continue]
    goes to the next line and [break] returns [out]. *)
Fixpoint clean_loop (lines out : list pystr) : list pystr :=
  match lines with
  | [] => out
  | l :: lines' =>
      let line := rewrite_line l in
      let lower := lower U line in
      if existsb (λ tag, Str.contains tag lower) boilerplate_tags
      then clean_loop lines' out
      else if Str.startswith (py "you might also like") lower then out
      else clean_loop lines' (out ++ [line])
  end.

Definition blank (s : pystr) : bool :=
  match Str.strip s with [] => true | _ => false end.

(** [while out and not out[0].strip(): out.pop(0)] *)
Definition pop_front_blank (out : list pystr) : list pystr :=
  drop_while blank out.

(** [while out and not out[-1].strip(): out.pop()] *)
Definition pop_back_blank (out : list pystr) : list pystr :=
  drop_while_end blank out.

Definition clean_lyrics (raw : pystr) : pystr :=
  let lines := Str.splitlines raw in
  let out := clean_loop lines [] in
  let out := pop_front_blank out in
  let out := pop_back_blank out in
  Str.join NL out.

End Clean.

(** ** Effects

    The script talks to two lyric providers, to the files it tags and to the
    logger.  Every such interaction is an [Event]; a computation reads the
    history so far and returns its outcome with the events it added. *)

Inductive Frame :=
| TextFrame (FrameID : pystr) (encoding : N) (text : list pystr)
| USLT (encoding : N) (lang desc text : pystr)
| OtherFrame (key : pystr) (data : list N).

(** [frame.HashKey]; unsynchronized lyrics are keyed by description and
    language. *)
Definition HashKey (f : Frame) : pystr :=
  match f with
  | TextFrame fid _ _ => fid
  | USLT _ lang desc _ => py "USLT:" ++ desc ++ py ":" ++ lang
  | OtherFrame key _ => key
  end.

(** [isinstance(f, USLT)] *)
Definition is_USLT (f : Frame) : bool :=
  match f with USLT _ _ _ _ => true | _ => false end.

(** [audio.tags]: a dictionary from hash keys to frames. *)
Abbreviation Tags := (gmap pystr Frame).

(** [tags.add(frame)] stores the frame under its hash key. *)
Definition tags_add (f : Frame) (tags : Tags) : Tags := <[HashKey f := f]> tags.

Inductive exn := IndexError | AttributeError.

Inductive Outcome (A : Type) :=
| Return (a : A)
| Raise (e : exn).
Arguments Return {A} a.
Arguments Raise {A} e.

Inductive Source := genius_source | ovh_source.

(** [genius.search_song(t, a)]: an exception, [None], or a song with its
    [lyrics]. *)
Inductive GeniusReply :=
| GeniusError
| GeniusNone
| GeniusSong (lyrics : pystr).

(** [requests.get(url, timeout=5)]: an exception, or a response with its
    status code and what [r.json().get("lyrics")] gives: [None] when
    [r.json()] raises, [Some None] when the key is missing. *)
Inductive HttpReply :=
| HttpError
| HttpResponse (status_code : N) (json_lyrics : option (option pystr)).

(** [MP3(path, ID3=ID3)]: an exception, or the audio with its tags, [None]
    for a file without an ID3 header. *)
Inductive OpenReply :=
| OpenError
| Opened (tags : option Tags).

Inductive Level := DEBUG | INFO | WARNING | ERROR.

Inductive LogMsg :=
| MsgProcessing (path : pystr)
| MsgOpenFailure
| MsgExistingLyrics
| MsgMissingMetadata
| MsgNoLyrics
| MsgCleanedEmpty
| MsgSaved (source : Source) (title : pystr)
| MsgSaveFailure
| MsgGeniusSkipped
| MsgTryingGenius (t a : pystr)
| MsgGeniusError
| MsgOvhLookup (title artist : pystr)
| MsgOvhHttp (status_code : N) (artist title : pystr)
| MsgOvhFailed
| MsgInvalidPath
| MsgQueueing (files : nat) (threads : nat).

Inductive Event :=
| EvLog (level : Level) (msg : LogMsg)
| EvSearchSong (t a : pystr) (reply : GeniusReply)
| EvGet (artist title : pystr) (reply : HttpReply)
| EvOpen (path : pystr) (reply : OpenReply)
| EvSave (path : pystr) (tags : Tags) (ok : bool).

Abbreviation History := (list Event).

(** The Genius client: its [search_song] method. *)
Definition GeniusClient := History → pystr → pystr → GeniusReply.

(** What lies outside the process: the fallback provider's HTTP endpoint and
    the files.  Each answer may depend on everything that happened before. *)
Record World := {
  http_get : History → pystr → pystr → HttpReply;
  mp3_open : History → pystr → OpenReply;
  mp3_save : History → pystr → Tags → bool
}.

Definition Py (A : Type) : Type := History → Outcome A * list Event.

#[global] Instance py_ret : MRet Py := λ A a _, (Return a, []).

#[global] Instance py_bind : MBind Py := λ A B f m h,
  match m h with
  | (Return a, es) => let '(r, es') := f a (h ++ es) in (r, es ++ es')
  | (Raise e, es) => (Raise e, es)
  end.

(** A computation without effects. *)
Definition pure {A} (o : Outcome A) : Py A := λ _, (o, []).

(** An interaction: the answer is computed from the history and recorded. *)
Definition call {A} (answer : History → A) (ev : A → Event) : Py A :=
  λ h, let a := answer h in (Return a, [ev a]).

Definition log (level : Level) (msg : LogMsg) : Py unit :=
  call (λ _, tt) (λ _, EvLog level msg).

(** [bool(x)] for a value that is a [str] or [None]: the string when it is
    true. *)
Definition truthy (x : option pystr) : option pystr :=
  match x with
  | Some (c :: s) => Some (c :: s)
  | _ => None
  end.

(** ** The providers and [get_raw_lyrics] *)

Section Resolver.
Variable W : World.

Definition fetch_lyrics_ovh (title artist : pystr) : Py (option pystr) :=
  log INFO (MsgOvhLookup title artist) ;;
  r ← call (λ h, http_get W h artist title) (EvGet artist title) ;
  match r with
  | HttpResponse status_code json_lyrics =>
      log DEBUG (MsgOvhHttp status_code artist title) ;;
      if status_code =? 200 then
        match json_lyrics with
        | Some lyrics => mret lyrics
        | None => log WARNING MsgOvhFailed ;; mret None
        end
      else mret None
  | HttpError => log WARNING MsgOvhFailed ;; mret None
  end.

(** The list [variants]. *)
Definition variants (title artist : pystr) (alt_title alt_artist : option pystr)
  : list (pystr * pystr) :=
  let variants := [(title, artist)] in
  let variants :=
    match truthy alt_artist with
    | Some alt_artist => variants ++ [(title, alt_artist)]
    | None => variants
    end in
  let variants :=
    match truthy alt_title with
    | Some alt_title => variants ++ [(alt_title, artist)]
    | None => variants
    end in
  match truthy alt_title, truthy alt_artist with
  | Some alt_title, Some alt_artist => variants ++ [(alt_title, alt_artist)]
  | _, _ => variants
  end.

(** [for t, a in variants: ...] over the Genius client; [Some lyrics] is the
    [return] inside the loop, [None] falling out of it. *)
Fixpoint genius_loop (genius : GeniusClient) (vs : list (pystr * pystr))
  : Py (option pystr) :=
  match vs with
  | [] => mret None
  | (t, a) :: vs' =>
      log INFO (MsgTryingGenius t a) ;;
      song ← call (λ h, genius h t a) (EvSearchSong t a) ;
      match song with
      | GeniusSong (c :: lyrics) => mret (Some (c :: lyrics))
      | GeniusSong [] | GeniusNone => genius_loop genius vs'
      | GeniusError => log DEBUG MsgGeniusError ;; genius_loop genius vs'
      end
  end.

(** [for t, a in variants: ...] over the fallback provider. *)
Fixpoint ovh_loop (vs : list (pystr * pystr)) : Py (option pystr) :=
  match vs with
  | [] => mret None
  | (t, a) :: vs' =>
      lyrics ← fetch_lyrics_ovh t a ;
      match truthy lyrics with
      | Some lyrics => mret (Some lyrics)
      | None => ovh_loop vs'
      end
  end.

(** The pair [(None, None)] is [None] here. *)
Definition get_raw_lyrics (title artist : pystr) (genius : option GeniusClient)
    (use_genius : bool) (alt_title alt_artist : option pystr)
  : Py (option (pystr * Source)) :=
  let variants := variants title artist alt_title alt_artist in
  found ←
    match use_genius, genius with
    | true, Some genius => genius_loop genius variants
    | _, _ => log INFO MsgGeniusSkipped ;; mret None
    end ;
  match found with
  | Some lyrics => mret (Some (lyrics, genius_source))
  | None =>
      lyrics ← ovh_loop variants ;
      match lyrics with
      | Some lyrics => mret (Some (lyrics, ovh_source))
      | None => mret None
      end
  end.

End Resolver.

(** ** [add_lyrics_to_file] *)

(** [any(isinstance(f, USLT) for f in tags.values())] *)
Definition has_USLT (tags : Tags) : bool :=
  existsb is_USLT (map_to_list tags).*2.

(** [frame.text[0]]: a text frame holds a list of strings; on the lyrics
    frame [text] is one string, whose item 0 is its first character; other
    frames have no such attribute. *)
Definition text0 (f : Frame) : Outcome pystr :=
  match f with
  | TextFrame _ _ (s :: _) => Return s
  | TextFrame _ _ [] => Raise IndexError
  | USLT _ _ _ (c :: _) => Return [c]
  | USLT _ _ _ [] => Raise IndexError
  | OtherFrame _ _ => Raise AttributeError
  end.

Definition Some_of (o : Outcome pystr) : Outcome (option pystr) :=
  match o with
  | Return s => Return (Some s)
  | Raise e => Raise e
  end.

(** [next((tags.get(f).text[0] for f in fields if tags.get(f)), None)]: a
    frame object is true whatever it holds. *)
Fixpoint first_text (fields : list pystr) (tags : Tags) : Outcome (option pystr) :=
  match fields with
  | [] => Return None
  | f :: fields' =>
      match tags !! f with
      | Some frame => Some_of (text0 frame)
      | None => first_text fields' tags
      end
  end.

(** [tags.get(f).text[0] if tags.get(f) else None] *)
Definition text0_or_None (f : pystr) (tags : Tags) : Outcome (option pystr) :=
  match tags !! f with
  | Some frame => Some_of (text0 frame)
  | None => Return None
  end.

(** [audio.tags] after [if audio.tags is None: audio.add_tags()] *)
Definition tags_or_new (audio_tags : option Tags) : Tags :=
  match audio_tags with
  | None => ∅
  | Some tags => tags
  end.

Section Job.
Variable U : Unicode.
Variable W : World.

Definition add_lyrics_to_file (path : pystr) (genius : option GeniusClient)
    (use_genius overwrite : bool) : Py bool :=
  log INFO (MsgProcessing path) ;;
  audio ← call (λ h, mp3_open W h path) (EvOpen path) ;
  match audio with
  | OpenError => log ERROR MsgOpenFailure ;; mret false
  | Opened audio_tags =>
      let tags := tags_or_new audio_tags in
      if negb overwrite && has_USLT tags then
        log INFO MsgExistingLyrics ;; mret false
      else
        title ← pure (first_text [py "TIT2"; py "TALB"] tags) ;
        artist ← pure (first_text [py "TPE1"; py "TPE2"] tags) ;
        match truthy title, truthy artist with
        | Some title, Some artist =>
            alt_title ← pure (text0_or_None (py "TALB") tags) ;
            alt_artist ← pure (text0_or_None (py "TPE2") tags) ;
            found ← get_raw_lyrics W title artist genius use_genius
                      alt_title alt_artist ;
            match found with
            | None => log WARNING MsgNoLyrics ;; mret false
            | Some (raw, source) =>
                match clean_lyrics U raw with
                | [] => log WARNING MsgCleanedEmpty ;; mret false
                | cleaned =>
                    let tags :=
                      tags_add (USLT 3 (py "eng") (py "") cleaned) tags in
                    saved ← call (λ h, mp3_save W h path tags)
                              (EvSave path tags) ;
                    if (saved : bool) then
                      log INFO (MsgSaved source title) ;; mret true
                    else log ERROR MsgSaveFailure ;; mret false
                end
            end
        | _, _ => log WARNING MsgMissingMetadata ;; mret false
        end
  end.

End Job.

(** ** [process_path]: the scan *)

(** A directory entry as [os.walk] sees it. *)
#[local] Unset Elimination Schemes.
Inductive Entry :=
| File (name : pystr)
| Dir (name : pystr) (entries : list Entry).
#[local] Set Elimination Schemes.

(** What a path names: nothing, something that is no directory, or a
    directory with its entries in listing order. *)
Inductive PathKind :=
| Missing
| NotDirectory
| Directory (entries : list Entry).

Definition FileSystem := pystr → PathKind.

Module Path.

(** [os.path.join(a, b)] on POSIX *)
Definition join (a b : pystr) : pystr :=
  if Str.startswith (py "/") b then b
  else match a with
       | [] => b
       | _ => if Str.endswith (py "/") a then a ++ b else a ++ py "/" ++ b
       end.

(** [os.path.isdir] *)
Definition isdir (fs : FileSystem) (p : pystr) : bool :=
  match fs p with Directory _ => true | _ => false end.

Definition filenames (entries : list Entry) : list pystr :=
  omap (λ e, match e with File name => Some name | Dir _ _ => None end) entries.

(** [os.walk], top-down: a directory, then each of its subdirectories in
    turn; of each triple only [(dirpath, filenames)].  [walk_entry parent e]
    is the walk of the subdirectory [e] of [parent]. *)
Fixpoint walk_entry (parent : pystr) (e : Entry) : list (pystr * list pystr) :=
  match e with
  | File _ => []
  | Dir name sub =>
      let top := join parent name in
      (top, filenames sub) :: concat (map (walk_entry top) sub)
  end.

Definition walk_entries (top : pystr) (entries : list Entry)
  : list (pystr * list pystr) :=
  (top, filenames entries) :: concat (map (walk_entry top) entries).

Definition walk (fs : FileSystem) (top : pystr) : list (pystr * list pystr) :=
  match fs top with
  | Directory entries => walk_entries top entries
  | _ => []
  end.

End Path.

Section Scan.
Variable U : Unicode.
Variable fs : FileSystem.

(** [f.lower().endswith(".mp3")] *)
Definition is_mp3 (f : pystr) : bool := Str.endswith (py ".mp3") (lower U f).

(** The two nested [for] loops: the list [mp3s] after them. *)
Definition collect (walked : list (pystr * list pystr)) : list pystr :=
  concat (map (λ '(dp, fs), map (Path.join dp) (List.filter is_mp3 fs))
              walked).

(** [process_path] up to the hand-over to the executor: the list [mp3s] of
    jobs, or [None] on the early [return]. *)
Definition process_path_scan (root : pystr) (threads : nat)
  : Py (option (list pystr)) :=
  if Path.isdir fs root then
    let mp3s := collect (Path.walk fs root) in
    log INFO (MsgQueueing (length mp3s) threads) ;; mret (Some mp3s)
  else if is_mp3 root then
    let mp3s := [root] in
    log INFO (MsgQueueing (length mp3s) threads) ;; mret (Some mp3s)
  else log ERROR MsgInvalidPath ;; mret None.

End Scan.

(** ** Observations on histories *)

Definition genius_queries (es : list Event) : list (pystr * pystr * GeniusReply) :=
  omap (λ e, match e with
             | EvSearchSong t a reply => Some (t, a, reply)
             | _ => None
             end) es.

Definition ovh_queries (es : list Event) : list (pystr * pystr * HttpReply) :=
  omap (λ e, match e with
             | EvGet artist title reply => Some (title, artist, reply)
             | _ => None
             end) es.

Definition saves (es : list Event) : list (pystr * Tags * bool) :=
  omap (λ e, match e with
             | EvSave path tags ok => Some (path, tags, ok)
             | _ => None
             end) es.

Definition opens (es : list Event) : list OpenReply :=
  omap (λ e, match e with EvOpen _ reply => Some reply | _ => None end) es.

Definition logged (es : list Event) : list LogMsg :=
  omap (λ e, match e with EvLog _ msg => Some msg | _ => None end) es.

(** The non-empty lyrics a reply carries, if any. *)
Definition genius_lyrics (reply : GeniusReply) : option pystr :=
  match reply with
  | GeniusSong lyrics => truthy (Some lyrics)
  | _ => None
  end.

Definition ovh_lyrics (reply : HttpReply) : option pystr :=
  match reply with
  | HttpResponse status_code (Some lyrics) =>
      if status_code =? 200 then truthy lyrics else None
  | _ => None
  end.

(** No reply in [qs] carries lyrics. *)
Definition yields_nothing {R} (lyrics : R → option pystr)
    (qs : list (pystr * pystr * R)) : bool :=
  forallb (λ q, match lyrics q.2 with None => true | Some _ => false end) qs.

(** Some provider answered [raw], a non-empty text, during [es]. *)
Definition provider_hit (es : list Event) (raw : pystr) : Prop :=
  (∃ q, q ∈ genius_queries es ∧ genius_lyrics q.2 = Some raw) ∨
  (∃ q, q ∈ ovh_queries es ∧ ovh_lyrics q.2 = Some raw).

(** The order of the query variants as the specification words it; an
    alternate is present when it is a non-empty string. *)
Definition variant_order (T A : pystr) (T2 A2 : option pystr)
  : list (pystr * pystr) :=
  match truthy T2, truthy A2 with
  | None, None => [(T, A)]
  | None, Some a2 => [(T, A); (T, a2)]
  | Some t2, None => [(T, A); (t2, A)]
  | Some t2, Some a2 => [(T, A); (T, a2); (t2, A); (t2, a2)]
  end.


(** One pass over [vs]: the queries made and the lyrics found. *)
Inductive scanned {R} (lyrics : R → option pystr)
  : list (pystr * pystr) → list (pystr * pystr * R) → option pystr → Prop :=
| scanned_nil : scanned lyrics [] [] None
| scanned_miss v reply vs qs found :
    lyrics reply = None →
    scanned lyrics vs qs found →
    scanned lyrics (v :: vs) ((v, reply) :: qs) found
| scanned_hit v reply vs raw :
    lyrics reply = Some raw →
    scanned lyrics (v :: vs) [(v, reply)] (Some raw).

(** What one call of [get_raw_lyrics] leaves in the history: the primary
    provider, when enabled, is scanned first; the fallback is scanned when
    the primary is disabled or found nothing. *)
Inductive resolver_trace (enabled : bool) (order : list (pystr * pystr))
    (es : list Event) : option (pystr * Source) → Prop :=
| resolver_primary raw :
    enabled = true →
    scanned genius_lyrics order (genius_queries es) (Some raw) →
    ovh_queries es = [] →
    resolver_trace enabled order es (Some (raw, genius_source))
| resolver_fallback found :
    (if enabled then scanned genius_lyrics order (genius_queries es) None
     else genius_queries es = []) →
    scanned ovh_lyrics order (ovh_queries es) found →
    resolver_trace enabled order es ((λ raw, (raw, ovh_source)) <$> found).

(** The primary provider is used: [use_genius and genius]. *)
Definition primary_enabled (use_genius : bool) (genius : option GeniusClient)
  : bool :=
  use_genius && bool_decide (is_Some genius).

(** The lyrics frames among [tags.values()]. *)
Definition lyrics_frames (tags : Tags) : list Frame :=
  List.filter is_USLT (map_to_list tags).*2.

(** The events that reach a file. *)
Definition touches_file (e : Event) : bool :=
  match e with
  | EvOpen _ _ | EvSave _ _ _ => true
  | _ => false
  end.

Definition off_disk (es : list Event) : Prop :=
  Forall (λ e, touches_file e = false) es.


(** A string without line boundaries. *)
Definition unbroken (s : pystr) : Prop :=
  Forall (λ c, Str.is_linebreak c = false) s.

(** The two tests of the loop on a rewritten line: neither dropped nor the
    end of the lyrics. *)
Definition kept (U : Unicode) (line : pystr) : bool :=
  negb (existsb (λ tag, Str.contains tag (lower U line)) boilerplate_tags)
  && negb (Str.startswith (py "you might also like") (lower U line)).

(** [file_under top entries p name]: the directory [top] with the entries
    [entries] holds, at any depth, a file called [name] whose path is [p]. *)
Inductive file_under : pystr → list Entry → pystr → pystr → Prop :=
| file_here top entries name :
    File name ∈ entries →
    file_under top entries (Path.join top name) name
| file_below top entries d sub p name :
    Dir d sub ∈ entries →
    file_under (Path.join top d) sub p name →
    file_under top entries p name.

(** ** Sample files and worlds *)

Module Sample.

Definition path : pystr := py "song.mp3".

Definition title_frame : Frame := TextFrame (py "TIT2") 3 [py "Song"].
Definition artist_frame : Frame := TextFrame (py "TPE1") 3 [py "Band"].
Definition album_frame : Frame := TextFrame (py "TALB") 3 [py "Album"].
Definition french_lyrics : Frame := USLT 3 (py "fra") (py "") (py "vieux texte").

(** Title and artist, no lyrics. *)
Definition plain : Tags :=
  <[py "TIT2" := title_frame]> (<[py "TPE1" := artist_frame]> ∅).

(** Title, artist and lyrics in French. *)
Definition with_lyrics : Tags := <[py "USLT::fra" := french_lyrics]> plain.





Definition found_lyrics : pystr := py "la la la".

(** Every file opens with [tags], the fallback provider answers every
    query with [found_lyrics], and saving succeeds. *)
Definition world (tags : Tags) : World :=
  {| http_get := λ _ _ _, HttpResponse 200 (Some (Some found_lyrics));
     mp3_open := λ _ _, Opened (Some tags);
     mp3_save := λ _ _ _, true |}.


(** As [world], but the fallback provider knows the song only under the
    title "Album". *)
Definition album_world (tags : Tags) : World :=
  {| http_get := λ _ _ title,
       if decide (title = py "Album")
       then HttpResponse 200 (Some (Some found_lyrics))
       else HttpResponse 404 None;
     mp3_open := λ _ _, Opened (Some tags);
     mp3_save := λ _ _ _, true |}.

(** No path names anything. *)
Definition empty_disk : FileSystem := λ _, Missing.

(** A music directory with a subdirectory. *)
Definition music_disk : FileSystem :=
  λ p, if decide (p = py "music")
       then Directory [File (py "a.MP3");
                       Dir (py "sub") [File (py "b.mp3"); File (py "c.txt")];
                       File (py "d.mp3")]
       else Missing.

Definition verses : pystr :=
  Str.join NL [py "Verse one"; py "Verse two"; py "You Might Also Like";
               py "Other Song"].

End Sample.

(** ** Further observations *)

(** The loop's verdicts on a raw line [l]: dropped by [continue], or ending
    the lyrics by [break]; a line that would do both is dropped. *)
Definition dropped (U : Unicode) (l : pystr) : bool :=
  existsb (λ tag, Str.contains tag (lower U (rewrite_line U l)))
    boilerplate_tags.

Definition ends_lyrics (U : Unicode) (l : pystr) : bool :=
  negb (dropped U l)
  && Str.startswith (py "you might also like") (lower U (rewrite_line U l)).

(** The paths of the files that a history opens or saves. *)
Definition touched (es : list Event) : list pystr :=
  omap (λ e, match e with
             | EvOpen path _ | EvSave path _ _ => Some path
             | _ => None
             end) es.

(** [s] is item 0 of the text of the frame that the tags hold under [f]. *)
Definition tag_text (tags : Tags) (f s : pystr) : Prop :=
  ∃ frame, tags !! f = Some frame ∧ text0 frame = Return s.

(** File and directory names as a file system gives them: without "/". *)
Definition slashless (name : pystr) : bool :=
  forallb (λ c, negb (c =? 47)) name.

Fixpoint well_named (e : Entry) : bool :=
  match e with
  | File name => slashless name
  | Dir name sub => slashless name && forallb well_named sub
  end.

(** No file name that a walk lists ends in ".mp3". *)
Definition no_mp3 (U : Unicode) (walked : list (pystr * list pystr)) : bool :=
  forallb (λ dir, forallb (λ f, negb (is_mp3 U f)) dir.2) walked.

(** ** Further sample worlds *)

Module More.

(** No file can be opened. *)
Definition broken_world : World :=
  {| http_get := λ _ _ _, HttpError;
     mp3_open := λ _ _, OpenError;
     mp3_save := λ _ _ _, true |}.

(** The fallback provider knows no song. *)
Definition silent_world (tags : Tags) : World :=
  {| http_get := λ _ _ _, HttpResponse 404 None;
     mp3_open := λ _ _, Opened (Some tags);
     mp3_save := λ _ _ _, true |}.

(** The fallback provider answers with boilerplate only. *)
Definition boilerplate : pystr := py "12 Contributors".

Definition boilerplate_world (tags : Tags) : World :=
  {| http_get := λ _ _ _, HttpResponse 200 (Some (Some boilerplate));
     mp3_open := λ _ _, Opened (Some tags);
     mp3_save := λ _ _ _, true |}.

(** Title, artist and lyrics in English. *)
Definition with_english : Tags :=
  <[py "USLT::eng" := USLT 3 (py "eng") (py "") (py "old text")]> Sample.plain.

(** A directory of notes. *)
Definition notes_disk : FileSystem :=
  λ p, if decide (p = py "notes")
       then Directory [File (py "a.txt"); Dir (py "old") [File (py "mp3")]]
       else Missing.

Definition music_entries : list Entry :=
  [File (py "a.MP3");
   Dir (py "sub") [File (py "b.mp3"); File (py "c.txt")];
   File (py "d.mp3")].

End More.

(** * Proofs *)


Section DropWhile.
Context {A : Type} (p : A → bool).
Implicit Types l : list A.

Lemma drop_while_head l x r : drop_while p l = x :: r → p x = false.
Proof.
  induction l as [|y l IH]; cbn; [done|].
  destruct (p y) eqn:Hy; [done|]. by intros [= <- _].
Qed.

Lemma drop_while_fixed l :
  (∀ x r, l = x :: r → p x = false) → drop_while p l = l.
Proof.
  destruct l as [|x r]; [done|]. intros H. cbn. by rewrite (H x r).
Qed.

Lemma drop_while_idemp l : drop_while p (drop_while p l) = drop_while p l.
Proof. apply drop_while_fixed. intros x r. apply drop_while_head. Qed.

Lemma drop_while_suffix l : drop_while p l `suffix_of` l.
Proof.
  induction l as [|y l IH]; cbn; [done|].
  destruct (p y); [by apply suffix_cons_r|done].
Qed.

Lemma drop_while_Forall (Q : A → Prop) l :
  Forall Q l → Forall Q (drop_while p l).
Proof.
  intros H. destruct (drop_while_suffix l) as [k Hk].
  rewrite Hk in H. by apply Forall_app in H as [_ ?].
Qed.

Lemma drop_while_end_Forall (Q : A → Prop) l :
  Forall Q l → Forall Q (drop_while_end p l).
Proof.
  intros H. unfold drop_while_end.
  by apply Forall_reverse, drop_while_Forall, Forall_reverse.
Qed.

Lemma drop_while_end_last l x :
  last (drop_while_end p l) = Some x → p x = false.
Proof.
  unfold drop_while_end. rewrite last_reverse.
  destruct (drop_while p (reverse l)) as [|y r] eqn:Hd; [done|].
  cbn. intros [= <-]. by eapply drop_while_head.
Qed.

Lemma drop_while_end_fixed l :
  (∀ x, last l = Some x → p x = false) → drop_while_end p l = l.
Proof.
  intros H. unfold drop_while_end.
  rewrite drop_while_fixed; [apply reverse_involutive|].
  intros x r Hr. apply H. by rewrite <- (reverse_involutive l), Hr, last_reverse.
Qed.

(** Dropping at the end keeps a head that is to stay. *)
Lemma drop_while_end_head l x r :
  p x = false → ∃ r', drop_while_end p (x :: r) = x :: r'.
Proof.
  intros Hx. unfold drop_while_end. rewrite reverse_cons.
  assert (H : ∀ k, ∃ k', drop_while p (k ++ [x]) = k' ++ [x]).
  { induction k as [|y k IH]; cbn.
    - rewrite Hx. by exists [].
    - destruct (p y); [done|]. by exists (y :: k). }
  destruct (H (reverse r)) as [k' ->]. rewrite reverse_app. cbn. eauto.
Qed.

Lemma trim_front l : drop_while p (trim p l) = trim p l.
Proof.
  unfold trim. destruct (drop_while p l) as [|x r] eqn:Hd; [done|].
  destruct (drop_while_end_head r x r) as [r' ->].
  - by eapply drop_while_head.
  - apply drop_while_fixed. by intros ? ? [= <- _]; eapply drop_while_head.
Qed.

Lemma trim_back l : drop_while_end p (trim p l) = trim p l.
Proof.
  unfold trim. apply drop_while_end_fixed. apply drop_while_end_last.
Qed.

Lemma trim_idemp l : trim p (trim p l) = trim p l.
Proof. unfold trim at 1. by rewrite trim_front, trim_back. Qed.

Lemma trim_Forall (Q : A → Prop) l : Forall Q l → Forall Q (trim p l).
Proof. intros. by apply drop_while_end_Forall, drop_while_Forall. Qed.

Lemma trim_last l x : last (trim p l) = Some x → p x = false.
Proof. apply drop_while_end_last. Qed.

End DropWhile.

(** ** Strings *)

Lemma strip_idemp s : Str.strip (Str.strip s) = Str.strip s.
Proof. apply (trim_idemp Str.is_space). Qed.

Lemma strip_Forall (Q : N → Prop) s : Forall Q s → Forall Q (Str.strip s).
Proof. apply (trim_Forall Str.is_space). Qed.

Lemma startswith_app p a b :
  Str.startswith p a = true → Str.startswith p (a ++ b) = true.
Proof.
  revert a. induction p as [|c p IH]; intros [|d a]; cbn; try done.
  intros [-> Hp]%andb_prop. by rewrite IH.
Qed.

Lemma contains_cons p c s :
  Str.contains p s = true → Str.contains p (c :: s) = true.
Proof. intros H. cbn [Str.contains]. rewrite H. apply orb_true_r. Qed.

Lemma contains_app_r p a b :
  Str.contains p b = true → Str.contains p (a ++ b) = true.
Proof. intros H. induction a as [|c a IH]; [done|]. by apply contains_cons. Qed.

Lemma contains_app_l p a b :
  Str.contains p a = true → Str.contains p (a ++ b) = true.
Proof.
  induction a as [|c a IH]; cbn [Str.contains app].
  - rewrite orb_false_r. destruct p; [|done]. intros _. by destruct b.
  - intros [H|H]%orb_prop.
    + apply (startswith_app p (c :: a) b) in H. cbn [app] in H. by rewrite H.
    + rewrite IH by done. apply orb_true_r.
Qed.

Lemma contains_suffix p r s :
  r `suffix_of` s → Str.contains p r = true → Str.contains p s = true.
Proof. intros [k ->]. apply contains_app_r. Qed.


Lemma split1_Forall (Q : N → Prop) sep s :
  Forall Q s → Forall (Forall Q) (Str.split1 sep s).
Proof.
  induction 1 as [|c s Hc Hs IH]; cbn [Str.split1].
  - destruct (Str.startswith sep []); repeat constructor.
    by apply Forall_drop.
  - destruct (Str.startswith sep (c :: s)).
    + repeat constructor. by apply Forall_drop, Forall_cons.
    + destruct (Str.split1 sep s) as [|before [|after [|]]];
        try (repeat constructor; done).
      apply Forall_cons in IH as [Hb [Ha _]%Forall_cons].
      repeat constructor; done.
Qed.

Lemma letters_suffix n s r : Re.letters n s = Some r → r `suffix_of` s.
Proof.
  revert s. induction n as [|n IH]; intros s; cbn.
  - by intros [= ->].
  - destruct s as [|c s]; [done|]. destruct (Re.az_ci c); [|done].
    intros H. by apply suffix_cons_r, IH.
Qed.

Lemma bars_sep s r :
  Re.bars s = Some r → Str.contains (py "||") s = true ∧ r `suffix_of` s.
Proof.
  unfold Re.bars. destruct (Str.startswith (py "||") s) eqn:Hs; [|done].
  intros [= <-]. split; [|apply suffix_drop].
  destruct s; cbn [Str.contains]; by rewrite Hs.
Qed.

Lemma match_code_sep s r :
  Re.match_code s = Some r →
  Str.contains (py "||") s = true ∧ r `suffix_of` s.
Proof.
  assert (H : ∀ n, Re.letters n s ≫= Re.bars = Some r →
              Str.contains (py "||") s = true ∧ r `suffix_of` s).
  { intros n Hn. destruct (Re.letters n s) as [t|] eqn:Ht; [|done].
    apply letters_suffix in Ht. apply bars_sep in Hn as [Hc Hr].
    split; [by eapply contains_suffix|by etrans]. }
  unfold Re.match_code.
  destruct (Re.letters 3 s ≫= Re.bars) eqn:H3.
  - intros [= <-]. by apply (H 3%nat).
  - apply (H 2%nat).
Qed.

Section CleanFacts.
Variable U : Unicode.

Lemma match_prefix_sep s r :
  Re.match_prefix U s = Some r →
  Str.contains (py "||") s = true ∧ r `suffix_of` s.
Proof.
  revert r. induction s as [|c s IH]; intros r; cbn [Re.match_prefix].
  - apply match_code_sep.
  - destruct (Re.nonword U c); [|apply match_code_sep].
    destruct (Re.match_prefix U s) as [r'|]; [|apply match_code_sep].
    intros [= <-]. destruct (IH r' eq_refl) as [Hc Hr].
    split; [by apply contains_cons|by apply suffix_cons_r].
Qed.

Lemma sub_prefix_fixed s :
  Str.contains (py "||") s = false → Re.sub_prefix U s = s.
Proof.
  intros Hs. unfold Re.sub_prefix.
  destruct (Re.match_prefix U s) as [r|] eqn:Hm; [|done].
  apply match_prefix_sep in Hm as [Hc _]. congruence.
Qed.

Lemma sub_prefix_Forall (Q : N → Prop) s :
  Forall Q s → Forall Q (Re.sub_prefix U s).
Proof.
  intros Hs. unfold Re.sub_prefix.
  destruct (Re.match_prefix U s) as [r|] eqn:Hm; [|done].
  apply match_prefix_sep in Hm as [_ [k ->]]. by apply Forall_app in Hs as [_ ?].
Qed.

Lemma rewrite_line_Forall (Q : N → Prop) l :
  Forall Q l → Forall Q (rewrite_line U l).
Proof.
  intros Hl. unfold rewrite_line.
  apply strip_Forall, sub_prefix_Forall.
  pose proof (strip_Forall Q l Hl) as Hs.
  destruct (Str.contains _ _); [|done].
  pose proof (split1_Forall Q (py "||") _ Hs) as Hp.
  destruct (Str.split1 _ _) as [|prefix [|rest [|]]]; try done.
  destruct (Re.fullmatch_code _); [|done].
  apply strip_Forall. by apply Forall_cons in Hp as [_ [? _]%Forall_cons].
Qed.

Lemma rewrite_line_stripped l :
  Str.strip (rewrite_line U l) = rewrite_line U l.
Proof. apply strip_idemp. Qed.



Lemma splitlines_from_unbroken s :
  (∀ cur, unbroken cur → Forall unbroken (Str.splitlines_from cur s)) ∧
  (∀ c cur, unbroken cur → Forall unbroken (Str.splitlines_from cur (c :: s))).
Proof.
  assert (Hrev : ∀ cur, unbroken cur → unbroken (reverse cur))
    by (intros cur; apply Forall_reverse).
  induction s as [|d s [IH1 IH2]].
  - split.
    + intros [|c cur] Hcur; cbn [Str.splitlines_from]; repeat constructor.
      by apply Hrev.
    + intros c cur Hcur. cbn [Str.splitlines_from].
      destruct (Str.is_linebreak c) eqn:Hc; repeat constructor; auto.
      apply (Hrev (c :: cur)). by constructor.
  - split; [apply IH2|].
    intros c cur Hcur. cbn [Str.splitlines_from].
    destruct (Str.is_linebreak c) eqn:Hc.
    + constructor; [auto|].
      destruct ((c =? 13) && (d =? 10)); [apply IH1|apply IH2]; constructor.
    + apply IH2. by constructor.
Qed.

Lemma splitlines_unbroken s : Forall unbroken (Str.splitlines s).
Proof. apply splitlines_from_unbroken. constructor. Qed.

Lemma splitlines_from_app cur l rest :
  unbroken l →
  Str.splitlines_from cur (l ++ rest) = Str.splitlines_from (reverse l ++ cur) rest.
Proof.
  intros Hl. revert cur. induction Hl as [|c l Hc _ IH]; intros cur; [done|].
  cbn [app Str.splitlines_from]. rewrite Hc, IH, reverse_cons.
  by rewrite <- app_assoc.
Qed.

Lemma splitlines_from_newline cur d s :
  Str.splitlines_from cur (10 :: d :: s) =
  reverse cur :: Str.splitlines_from [] (d :: s).
Proof. reflexivity. Qed.

Lemma join_nonempty sep ls x :
  last ls = Some x → x ≠ [] → Str.join sep ls ≠ [].
Proof.
  induction ls as [|l ls IH]; [done|].
  destruct ls as [|l' ls]; cbn [Str.join].
  - by intros [= ->].
  - intros Hl Hx. rewrite last_cons_cons in Hl.
    specialize (IH Hl Hx). intros [_ [_ ?]%app_eq_nil]%app_eq_nil. done.
Qed.

Lemma splitlines_join ls :
  Forall unbroken ls →
  (∀ x, last ls = Some x → x ≠ []) →
  Str.splitlines (Str.join NL ls) = ls.
Proof.
  unfold Str.splitlines.
  induction 1 as [|l ls Hl Hls IH]; intros Hlast; [done|].
  destruct ls as [|l' ls].
  - cbn [Str.join].
    rewrite <- (app_nil_r l) at 1. rewrite splitlines_from_app by done.
    cbn [Str.splitlines_from]. rewrite app_nil_r.
    destruct (reverse l) as [|c r] eqn:Hr.
    + apply (f_equal reverse) in Hr. rewrite reverse_involutive in Hr.
      by destruct (Hlast l).
    + by rewrite <- Hr, reverse_involutive.
  - change (Str.join NL (l :: l' :: ls))
      with (l ++ 10 :: Str.join NL (l' :: ls)).
    assert (Hne : Str.join NL (l' :: ls) ≠ []).
    { destruct (last (l' :: ls)) as [x|] eqn:Hx; [|by apply last_None in Hx].
      apply (join_nonempty _ _ x Hx), Hlast. by rewrite last_cons_cons. }
    assert (IH' : Str.splitlines_from [] (Str.join NL (l' :: ls)) = l' :: ls).
    { apply IH. intros x Hx. apply Hlast. by rewrite last_cons_cons. }
    destruct (Str.join NL (l' :: ls)) as [|d s''] eqn:Hj; [done|].
    rewrite splitlines_from_app by done. rewrite app_nil_r.
    by rewrite splitlines_from_newline, reverse_involutive, IH'.
Qed.

Lemma clean_loop_app lines out :
  clean_loop U lines out = out ++ clean_loop U lines [].
Proof.
  revert out. induction lines as [|l lines IH]; intros out; cbn [clean_loop].
  - by rewrite app_nil_r.
  - cbv zeta. destruct (existsb _ _); [apply IH|].
    destruct (Str.startswith _ _); [by rewrite app_nil_r|].
    rewrite IH, (IH ([] ++ _)). by rewrite <- app_assoc.
Qed.

Lemma clean_loop_kept lines :
  Forall (λ x, (∃ l, l ∈ lines ∧ x = rewrite_line U l) ∧ kept U x = true)
    (clean_loop U lines []).
Proof.
  induction lines as [|l lines IH]; cbn [clean_loop]; [constructor|].
  cbv zeta.
  assert (IH' : Forall (λ x, (∃ l0, l0 ∈ l :: lines ∧ x = rewrite_line U l0)
                             ∧ kept U x = true) (clean_loop U lines [])).
  { eapply Forall_impl; [exact IH|]. intros x [(l0 & Hl0 & ->) Hk].
    split; [|done]. exists l0. split; [by right|done]. }
  destruct (existsb _ _) eqn:Htag; [done|].
  destruct (Str.startswith _ _) eqn:Hend; [constructor|].
  rewrite clean_loop_app. cbn [app]. constructor; [|done].
  split; [exists l; split; [by left|done]|].
  unfold kept. by rewrite Htag, Hend.
Qed.


Lemma blank_false_nonempty x : blank x = false → x ≠ [].
Proof. by intros H ->. Qed.


End CleanFacts.

Lemma bind_eq {A B} (m : Py A) (f : A → Py B) h :
  (m ≫= f) h =
  match m h with
  | (Return a, es) => let '(r, es') := f a (h ++ es) in (r, es ++ es')
  | (Raise e, es) => (Raise e, es)
  end.
Proof. reflexivity. Qed.

Lemma bind_pure {A B} (o : Outcome A) (f : A → Py B) h :
  (pure o ≫= f) h =
  match o with
  | Return a => f a h
  | Raise e => (Raise e, [])
  end.
Proof.
  rewrite bind_eq. unfold pure. destruct o as [a|e]; [|done].
  rewrite app_nil_r. by destruct (f a h).
Qed.

Lemma truthy_Some x s : truthy x = Some s → x = Some s ∧ s ≠ [].
Proof. destruct x as [[|c l]|]; simpl; intros [= <-]; done. Qed.

Lemma variants_order T A T2 A2 : variants T A T2 A2 = variant_order T A T2 A2.
Proof.
  unfold variants, variant_order.
  destruct (truthy T2), (truthy A2); reflexivity.
Qed.


Section Scanned.
Context {R : Type} (lyrics : R → option pystr).
Implicit Types (vs : list (pystr * pystr)) (qs : list (pystr * pystr * R)).

Lemma scanned_prefix vs qs found :
  scanned lyrics vs qs found → qs.*1 `prefix_of` vs.
Proof.
  induction 1 as [|v r vs qs found Hm _ IH|v r vs raw Hh]; cbn.
  - done.
  - by apply prefix_cons.
  - apply prefix_cons, prefix_nil.
Qed.


Lemma scanned_found vs qs found raw :
  scanned lyrics vs qs found →
  (∃ q, q ∈ qs ∧ lyrics q.2 = Some raw) ↔ found = Some raw.
Proof.
  induction 1 as [|v r vs qs found Hm _ IH|v r vs raw' Hh].
  - split; [intros (q & Hq & _); by apply elem_of_nil in Hq|done].
  - rewrite <- IH. split; intros (q & Hq & Hl).
    + apply elem_of_cons in Hq as [->|Hq]; [cbn in Hl; congruence|eauto].
    + exists q. split; [by right|done].
  - split.
    + intros (q & Hq & Hl). apply list_elem_of_singleton in Hq as ->.
      cbn in Hl. congruence.
    + intros [= <-]. exists (v, r). split; [by left|done].
Qed.







End Scanned.

Lemma off_disk_saves es : off_disk es → saves es = [].
Proof.
  induction 1 as [|e es He _ IH]; [done|].
  destruct e; cbn in *; done.
Qed.

Lemma off_disk_opens es : off_disk es → opens es = [].
Proof.
  induction 1 as [|e es He _ IH]; [done|].
  destruct e; cbn in *; done.
Qed.

Section ResolverFacts.
Variable W : World.

Lemma genius_loop_scanned g vs h :
  ∃ found es,
    genius_loop g vs h = (Return found, es) ∧
    scanned genius_lyrics vs (genius_queries es) found ∧
    ovh_queries es = [] ∧ off_disk es.
Proof.
  revert h. induction vs as [|[t a] vs IH]; intros h.
  - exists None, []. repeat split; constructor.
  - unfold off_disk in *. cbn [genius_loop]. rewrite !bind_eq. cbn [log call].
    rewrite bind_eq. cbn [call].
    set (h1 := (h ++ [EvLog INFO (MsgTryingGenius t a)])).
    destruct (g h1 t a) as [| |[|c l]] eqn:Hr.
    + rewrite bind_eq. cbn [log call].
      match goal with |- context [genius_loop g vs ?hx] =>
        destruct (IH hx) as (found & es & -> & Hs & Ho & Hsv) end.
      eexists _, _. split; [reflexivity|]. cbn.
      repeat split; try done; [by constructor|by repeat constructor].
    + match goal with |- context [genius_loop g vs ?hx] =>
        destruct (IH hx) as (found & es & -> & Hs & Ho & Hsv) end.
      eexists _, _. split; [reflexivity|]. cbn.
      repeat split; try done; [by constructor|by repeat constructor].
    + match goal with |- context [genius_loop g vs ?hx] =>
        destruct (IH hx) as (found & es & -> & Hs & Ho & Hsv) end.
      eexists _, _. split; [reflexivity|]. cbn.
      repeat split; try done; [by constructor|by repeat constructor].
    + eexists _, _. split; [reflexivity|]. cbn.
      repeat split; try done; [by constructor|by repeat constructor].
Qed.

Lemma fetch_lyrics_ovh_run title artist h :
  ∃ lyrics es reply,
    fetch_lyrics_ovh W title artist h = (Return lyrics, es) ∧
    truthy lyrics = ovh_lyrics reply ∧
    ovh_queries es = [(title, artist, reply)] ∧
    genius_queries es = [] ∧ off_disk es.
Proof.
  unfold off_disk, fetch_lyrics_ovh. rewrite bind_eq. cbn [log call].
  rewrite bind_eq. cbn [call].
  set (h1 := h ++ _).
  destruct (http_get W h1 artist title) as [|status [lyrics|]] eqn:Hr.
  - rewrite bind_eq. cbn. eexists None, _, HttpError.
    split; [reflexivity|]. repeat split; by repeat constructor.
  - rewrite bind_eq. cbn [log call].
    destruct (status =? 200) eqn:Hs.
    + cbn. eexists lyrics, _, (HttpResponse status (Some lyrics)).
      split; [reflexivity|]. cbn. rewrite Hs.
      repeat split; by repeat constructor.
    + cbn. eexists None, _, (HttpResponse status (Some lyrics)).
      split; [reflexivity|]. cbn. rewrite Hs.
      repeat split; by repeat constructor.
  - rewrite bind_eq. cbn [log call].
    destruct (status =? 200) eqn:Hs.
    + rewrite bind_eq. cbn. eexists None, _, (HttpResponse status None).
      split; [reflexivity|]. repeat split; by repeat constructor.
    + cbn. eexists None, _, (HttpResponse status None).
      split; [reflexivity|]. repeat split; by repeat constructor.
Qed.

Lemma ovh_loop_scanned vs h :
  ∃ found es,
    ovh_loop W vs h = (Return found, es) ∧
    scanned ovh_lyrics vs (ovh_queries es) found ∧
    genius_queries es = [] ∧ off_disk es.
Proof.
  revert h. induction vs as [|[t a] vs IH]; intros h.
  - exists None, []. repeat split; constructor.
  - cbn [ovh_loop]. rewrite bind_eq.
    destruct (fetch_lyrics_ovh_run t a h)
      as (lyrics & es1 & reply & -> & Ht & Hq & Hg & Hsv).
    destruct (truthy lyrics) as [raw|] eqn:Hl.
    + cbn. eexists _, _. split; [reflexivity|].
      rewrite app_nil_r, Hq. repeat split; try done. by constructor.
    + destruct (IH (h ++ es1)) as (found & es & -> & Hs & Ho & Hsv').
      eexists _, _. split; [reflexivity|].
      split; [|split; [|by apply Forall_app]].
      * unfold ovh_queries in *. rewrite omap_app, Hq. by constructor.
      * unfold genius_queries in *. by rewrite omap_app, Hg, Ho.
Qed.


Lemma get_raw_lyrics_run T A genius use_genius T2 A2 h :
  ∃ found es,
    get_raw_lyrics W T A genius use_genius T2 A2 h = (Return found, es) ∧
    off_disk es ∧
    resolver_trace (primary_enabled use_genius genius)
      (variant_order T A T2 A2) es found.
Proof.
  unfold get_raw_lyrics. rewrite variants_order.
  set (order := variant_order T A T2 A2).
  rewrite bind_eq.
  destruct use_genius, genius as [g|]; cbn [primary_enabled andb].
  1: { destruct (genius_loop_scanned g order h)
         as (gf & es1 & -> & Hg & Ho & Hsv).
       destruct gf as [raw|].
       { cbn. eexists _, _. split; [reflexivity|]. rewrite app_nil_r.
         split; [done|]. apply resolver_primary; done. }
       rewrite bind_eq.
       destruct (ovh_loop_scanned order (h ++ es1))
         as (fo & es2 & -> & Ho2 & Hg2 & Hsv2).
       assert (Hq : genius_queries (es1 ++ es2) = genius_queries es1)
         by (unfold genius_queries in *; by rewrite omap_app, Hg2, app_nil_r).
       assert (Hq' : ovh_queries (es1 ++ es2) = ovh_queries es2)
         by (unfold ovh_queries in *; by rewrite omap_app, Ho).
       assert (Hs' : off_disk (es1 ++ es2)) by (by apply Forall_app).
       destruct fo as [raw|]; cbn; eexists _, _; (split; [reflexivity|]);
         rewrite ?app_nil_r; (split; [done|]).
       - apply (resolver_fallback _ _ _ (Some raw)); cbn; by rewrite ?Hq, ?Hq'.
       - apply (resolver_fallback _ _ _ None); cbn; by rewrite ?Hq, ?Hq'. }
  all: rewrite !bind_eq; cbn [log call mret py_ret]; rewrite bind_eq.
  all: destruct (ovh_loop_scanned order (h ++ [EvLog INFO MsgGeniusSkipped] ++ []))
           as (fo & es2 & -> & Ho2 & Hg2 & Hsv2).
  all: destruct fo as [raw|]; cbn; eexists _, _; (split; [reflexivity|]);
         rewrite ?app_nil_r; (split; [by constructor|]).
  all: first [ apply (resolver_fallback _ _ _ (Some raw))
             | apply (resolver_fallback _ _ _ None) ]; by cbn.
Qed.


Lemma resolver_trace_hit enabled order es found raw :
  resolver_trace enabled order es found →
  provider_hit es raw ↔ ∃ source, found = Some (raw, source).
Proof.
  destruct 1 as [raw' He Hg Ho|fo Hg Ho].
  - pose proof (scanned_found _ _ _ _ raw Hg) as Hiff.
    unfold provider_hit. rewrite Ho. split.
    + intros [Hq|(q & Hq & _)]; [|by apply elem_of_nil in Hq].
      apply Hiff in Hq as [= ->]. eauto.
    + intros (source & [= ->]). left. by apply Hiff.
  - pose proof (scanned_found _ _ _ _ raw Ho) as Hiff.
    assert (Hnone : ¬ ∃ q, q ∈ genius_queries es ∧ genius_lyrics q.2 = Some raw).
    { destruct enabled.
      - intros Hq. by apply (scanned_found _ _ _ _ raw Hg) in Hq.
      - rewrite Hg. intros (q & Hq & _). by apply elem_of_nil in Hq. }
    unfold provider_hit. split.
    + intros [Hq|Hq]; [done|]. apply Hiff in Hq as ->. cbn. eauto.
    + intros (source & Hs). right. apply Hiff.
      destruct fo as [raw'|]; cbn in Hs; congruence.
Qed.

Lemma resolver_trace_nonempty enabled order es raw source :
  resolver_trace enabled order es (Some (raw, source)) → raw ≠ [].
Proof.
  intros Ht.
  assert (Hh : provider_hit es raw) by (eapply resolver_trace_hit; eauto).
  destruct Hh as [(q & _ & Hl)|(q & _ & Hl)].
  - destruct q as [? [| |lyr]]; try done.
    change (truthy (Some lyr) = Some raw) in Hl.
    by apply truthy_Some in Hl as [_ ?].
  - destruct q as [? [|status [lyr|]]]; try done.
    unfold ovh_lyrics in Hl. cbn [snd] in Hl.
    destruct (status =? 200); [|done]. by apply truthy_Some in Hl as [_ ?].
Qed.

End ResolverFacts.

Section JobFacts.
Variable U : Unicode.
Variable W : World.

Lemma add_lyrics_to_file_run path genius use_genius overwrite h :
  let reply := mp3_open W (h ++ [EvLog INFO (MsgProcessing path)]) path in
  let pre := [EvLog INFO (MsgProcessing path); EvOpen path reply] in
  let run := add_lyrics_to_file U W path genius use_genius overwrite h in
  match reply with
  | OpenError => run = (Return false, pre ++ [EvLog ERROR MsgOpenFailure])
  | Opened audio_tags =>
    let tags := tags_or_new audio_tags in
    if negb overwrite && has_USLT tags
    then run = (Return false, pre ++ [EvLog INFO MsgExistingLyrics])
    else
    match first_text [py "TIT2"; py "TALB"] tags with
    | Raise e => run = (Raise e, pre)
    | Return title =>
    match first_text [py "TPE1"; py "TPE2"] tags with
    | Raise e => run = (Raise e, pre)
    | Return artist =>
    match truthy title, truthy artist with
    | Some title, Some artist =>
      match text0_or_None (py "TALB") tags with
      | Raise e => run = (Raise e, pre)
      | Return alt_title =>
      match text0_or_None (py "TPE2") tags with
      | Raise e => run = (Raise e, pre)
      | Return alt_artist =>
        ∃ found es,
          off_disk es ∧
          resolver_trace (primary_enabled use_genius genius)
            (variant_order title artist alt_title alt_artist) es found ∧
          match found with
          | None =>
              run = (Return false, pre ++ es ++ [EvLog WARNING MsgNoLyrics])
          | Some (raw, source) =>
              match clean_lyrics U raw with
              | [] =>
                  run = (Return false,
                         pre ++ es ++ [EvLog WARNING MsgCleanedEmpty])
              | cleaned =>
                  let tags' :=
                    tags_add (USLT 3 (py "eng") (py "") cleaned) tags in
                  (run = (Return true,
                          pre ++ es ++ [EvSave path tags' true;
                                        EvLog INFO (MsgSaved source title)]))
                  ∨ (run = (Return false,
                            pre ++ es ++ [EvSave path tags' false;
                                          EvLog ERROR MsgSaveFailure]))
              end
          end
      end end
    | _, _ =>
        run = (Return false, pre ++ [EvLog WARNING MsgMissingMetadata])
    end end end
  end.
Proof.
  cbv zeta. unfold add_lyrics_to_file.
  rewrite bind_eq. cbn [log call]. rewrite bind_eq. cbn [call].
  destruct (mp3_open W _ path) as [|audio_tags]; [reflexivity|].
  destruct (negb overwrite && has_USLT _); [reflexivity|].
  rewrite bind_pure.
  destruct (first_text [py "TIT2"; _] _) as [title|e]; [|reflexivity].
  rewrite bind_pure.
  destruct (first_text [py "TPE1"; _] _) as [artist|e]; [|reflexivity].
  destruct (truthy title) as [title'|]; [|reflexivity].
  destruct (truthy artist) as [artist'|]; [|reflexivity].
  rewrite bind_pure.
  destruct (text0_or_None (py "TALB") _) as [alt_title|e]; [|reflexivity].
  rewrite bind_pure.
  destruct (text0_or_None (py "TPE2") _) as [alt_artist|e]; [|reflexivity].
  rewrite bind_eq.
  match goal with |- context [get_raw_lyrics W _ _ _ _ _ _ ?hx] =>
    destruct (get_raw_lyrics_run W title' artist' genius use_genius
                alt_title alt_artist hx) as (found & es & -> & Hoff & Ht) end.
  exists found, es. split; [done|]. split; [done|].
  destruct found as [[raw source]|]; [|by rewrite ?app_nil_r].
  destruct (clean_lyrics U raw) as [|c cleaned]; [by rewrite ?app_nil_r|].
  rewrite bind_eq. cbn [call].
  destruct (mp3_save W _ path _); [left|right]; by rewrite ?app_nil_r.
Qed.


(** The projections of a job's events: two leading events, the resolver's
    events [es], and what follows them. *)
Lemma saves_job (pre post : list Event) es :
  off_disk es → saves (pre ++ es ++ post) = saves pre ++ saves post.
Proof.
  intros Hoff. unfold saves. rewrite !omap_app.
  fold (saves es). by rewrite (off_disk_saves es Hoff).
Qed.

Lemma opens_job (pre post : list Event) es :
  off_disk es → opens (pre ++ es ++ post) = opens pre ++ opens post.
Proof.
  intros Hoff. unfold opens. rewrite !omap_app.
  fold (opens es). by rewrite (off_disk_opens es Hoff).
Qed.

Lemma provider_hit_job (pre post : list Event) es raw :
  genius_queries pre = [] → ovh_queries pre = [] →
  genius_queries post = [] → ovh_queries post = [] →
  provider_hit (pre ++ es ++ post) raw ↔ provider_hit es raw.
Proof.
  intros Hg1 Ho1 Hg2 Ho2. unfold provider_hit.
  assert (genius_queries (pre ++ es ++ post) = genius_queries es) as ->.
  { unfold genius_queries in *. by rewrite !omap_app, Hg1, Hg2, app_nil_r. }
  assert (ovh_queries (pre ++ es ++ post) = ovh_queries es) as ->.
  { unfold ovh_queries in *. by rewrite !omap_app, Ho1, Ho2, app_nil_r. }
  done.
Qed.

Lemma guard_passed overwrite tags :
  negb overwrite && has_USLT tags = false →
  has_USLT tags = false ∨ overwrite = true.
Proof. destruct overwrite, (has_USLT tags); cbn; auto. Qed.

(** C1. A job saves the file only if it lacked a lyrics frame or
    [overwrite] is set, and only with a frame whose text is the non-empty
    cleaning of a non-empty text some provider returned. *)
Theorem save_only_when_due path genius use_genius overwrite h :
  let run := add_lyrics_to_file U W path genius use_genius overwrite h in
  saves run.2 ≠ [] →
  ∃ audio_tags raw ok,
    opens run.2 = [Opened audio_tags] ∧
    (has_USLT (tags_or_new audio_tags) = false ∨ overwrite = true) ∧
    provider_hit run.2 raw ∧ raw ≠ [] ∧ clean_lyrics U raw ≠ [] ∧
    saves run.2 =
      [(path,
        tags_add (USLT 3 (py "eng") (py "") (clean_lyrics U raw))
          (tags_or_new audio_tags),
        ok)].
Proof.
  cbv zeta.
  pose proof (add_lyrics_to_file_run path genius use_genius overwrite h) as Hrun.
  cbv zeta in Hrun.
  destruct (mp3_open W _ path) as [|audio_tags]; [by rewrite Hrun|].
  destruct (negb overwrite && has_USLT _) eqn:Hguard; [by rewrite Hrun|].
  apply guard_passed in Hguard.
  destruct (first_text [py "TIT2"; _] _) as [title|e]; [|by rewrite Hrun].
  destruct (first_text [py "TPE1"; _] _) as [artist|e]; [|by rewrite Hrun].
  destruct (truthy title) as [title'|]; [|by rewrite Hrun].
  destruct (truthy artist) as [artist'|]; [|by rewrite Hrun].
  destruct (text0_or_None (py "TALB") _) as [alt_title|e]; [|by rewrite Hrun].
  destruct (text0_or_None (py "TPE2") _) as [alt_artist|e]; [|by rewrite Hrun].
  destruct Hrun as (found & es & Hoff & Ht & Hrun).
  destruct found as [[raw source]|];
    [|rewrite Hrun; cbn [snd]; by rewrite saves_job].
  pose proof (resolver_trace_nonempty _ _ _ _ _ Ht) as Hraw.
  assert (Hhit : provider_hit es raw) by (eapply resolver_trace_hit; eauto).
  destruct (clean_lyrics U raw) as [|c cleaned] eqn:Hclean;
    [rewrite Hrun; cbn [snd]; by rewrite saves_job|].
  intros _.
  destruct Hrun as [Hrun|Hrun]; rewrite Hrun; cbn [snd];
    [exists audio_tags, raw, true|exists audio_tags, raw, false].
  all: rewrite saves_job, opens_job, provider_hit_job, Hclean by done.
  all: done.
Qed.


Lemma opens_run path genius use_genius overwrite h :
  opens (add_lyrics_to_file U W path genius use_genius overwrite h).2 =
  [mp3_open W (h ++ [EvLog INFO (MsgProcessing path)]) path].
Proof.
  pose proof (add_lyrics_to_file_run path genius use_genius overwrite h) as Hrun.
  cbv zeta in Hrun.
  destruct (mp3_open W _ path) as [|audio_tags]; [by rewrite Hrun|].
  destruct (negb overwrite && has_USLT _); [by rewrite Hrun|].
  destruct (first_text [py "TIT2"; _] _) as [title|e]; [|by rewrite Hrun].
  destruct (first_text [py "TPE1"; _] _) as [artist|e]; [|by rewrite Hrun].
  destruct (truthy title) as [title'|]; [|by rewrite Hrun].
  destruct (truthy artist) as [artist'|]; [|by rewrite Hrun].
  destruct (text0_or_None (py "TALB") _) as [alt_title|e]; [|by rewrite Hrun].
  destruct (text0_or_None (py "TPE2") _) as [alt_artist|e]; [|by rewrite Hrun].
  destruct Hrun as (found & es & Hoff & Ht & Hrun).
  destruct found as [[raw source]|];
    [|rewrite Hrun; cbn [snd]; by rewrite opens_job].
  destruct (clean_lyrics U raw) as [|c cleaned];
    [rewrite Hrun; cbn [snd]; by rewrite opens_job|].
  destruct Hrun as [Hrun|Hrun]; rewrite Hrun; cbn [snd]; by rewrite opens_job.
Qed.

Lemma has_USLT_lookup (tags : Tags) key f :
  tags !! key = Some f → is_USLT f = true → has_USLT tags = true.
Proof.
  intros Hk Hf. unfold has_USLT. apply existsb_exists. exists f.
  split; [|done]. apply list_elem_of_In, list_elem_of_fmap.
  exists (key, f). split; [done|]. by apply elem_of_map_to_list.
Qed.

(** C5. A file that holds a lyrics frame, under whatever key, language or
    description, is skipped when [overwrite] is off: the job returns
    [False] right after the opening, no provider is queried and nothing is
    saved. *)
Theorem existing_lyrics_skipped path genius use_genius h tags
    key encoding lang desc text :
  let run := add_lyrics_to_file U W path genius use_genius false h in
  opens run.2 = [Opened (Some tags)] →
  tags !! key = Some (USLT encoding lang desc text) →
  run.1 = Return false ∧
  logged run.2 = [MsgProcessing path; MsgExistingLyrics] ∧
  genius_queries run.2 = [] ∧ ovh_queries run.2 = [] ∧ saves run.2 = [].
Proof.
  cbv zeta. rewrite opens_run. intros [= Hopen] Hkey.
  apply has_USLT_lookup in Hkey; [|done].
  pose proof (add_lyrics_to_file_run path genius use_genius false h) as Hrun.
  cbv zeta in Hrun. rewrite Hopen in Hrun. cbn [tags_or_new negb andb] in Hrun.
  rewrite Hkey in Hrun. by rewrite Hrun.
Qed.

(** X20. The job returns [True] exactly when it saved the file with
    success. *)
Lemma returns_True_iff_saved path genius use_genius overwrite h :
  let run := add_lyrics_to_file U W path genius use_genius overwrite h in
  run.1 = Return true ↔ ∃ tags', saves run.2 = [(path, tags', true)].
Proof.
  cbv zeta.
  pose proof (add_lyrics_to_file_run path genius use_genius overwrite h) as Hrun.
  cbv zeta in Hrun.
  assert (Hno : ∀ (r : Outcome bool) es,
            r ≠ Return true → saves es = [] →
            (r, es).1 = Return true ↔ ∃ tags', saves (r, es).2 = [(path, tags', true)]).
  { intros r es Hr Hs. cbn [fst snd]. rewrite Hs. split; [done|by intros [? ?]]. }
  destruct (mp3_open W _ path) as [|audio_tags]; [by rewrite Hrun; apply Hno|].
  destruct (negb overwrite && has_USLT _); [by rewrite Hrun; apply Hno|].
  destruct (first_text [py "TIT2"; _] _) as [title|e];
    [|by rewrite Hrun; apply Hno].
  destruct (first_text [py "TPE1"; _] _) as [artist|e];
    [|by rewrite Hrun; apply Hno].
  destruct (truthy title) as [title'|]; [|by rewrite Hrun; apply Hno].
  destruct (truthy artist) as [artist'|]; [|by rewrite Hrun; apply Hno].
  destruct (text0_or_None (py "TALB") _) as [alt_title|e];
    [|by rewrite Hrun; apply Hno].
  destruct (text0_or_None (py "TPE2") _) as [alt_artist|e];
    [|by rewrite Hrun; apply Hno].
  destruct Hrun as (found & es & Hoff & Ht & Hrun).
  destruct found as [[raw source]|];
    [|rewrite Hrun; apply Hno; [done|by rewrite saves_job]].
  destruct (clean_lyrics U raw) as [|c cleaned];
    [rewrite Hrun; apply Hno; [done|by rewrite saves_job]|].
  destruct Hrun as [Hrun|Hrun]; rewrite Hrun; cbn [fst snd];
    rewrite saves_job by done; cbn.
  - split; [eauto|done].
  - split; [done|]. by intros [? [= ]].
Qed.


(** C4, amended. When [overwrite] is set on a file that holds a lyrics
    frame and a provider's text cleans to a non-empty text, the tags handed
    to [save] hold under the key of language "eng" and empty description a
    frame with exactly the cleaned text, and every frame under another key,
    lyrics frames of another language or description among them, is the
    one the file had. *)
Theorem overwrite_sets_eng_frame path genius use_genius h tags raw :
  let run := add_lyrics_to_file U W path genius use_genius true h in
  opens run.2 = [Opened (Some tags)] →
  has_USLT tags = true →
  provider_hit run.2 raw →
  clean_lyrics U raw ≠ [] →
  ∃ ok tags',
    saves run.2 = [(path, tags', ok)] ∧ run.1 = Return ok ∧
    tags' !! py "USLT::eng" =
      Some (USLT 3 (py "eng") (py "") (clean_lyrics U raw)) ∧
    ∀ k, k ≠ py "USLT::eng" → tags' !! k = tags !! k.
Proof.
  cbv zeta. rewrite opens_run. intros [= Hopen] _.
  pose proof (add_lyrics_to_file_run path genius use_genius true h) as Hrun.
  cbv zeta in Hrun. rewrite Hopen in Hrun. cbn [tags_or_new negb andb] in Hrun.
  assert (Hpre : ¬ provider_hit
            [EvLog INFO (MsgProcessing path); EvOpen path (Opened (Some tags))]
            raw).
  { intros [(q & Hq & _)|(q & Hq & _)]; by apply elem_of_nil in Hq. }
  destruct (first_text [py "TIT2"; _] _) as [title|e];
    [|rewrite Hrun; intros Hh; by apply Hpre in Hh].
  destruct (first_text [py "TPE1"; _] _) as [artist|e];
    [|rewrite Hrun; intros Hh; by apply Hpre in Hh].
  assert (Hmiss : ¬ provider_hit
            ([EvLog INFO (MsgProcessing path);
              EvOpen path (Opened (Some tags))] ++
             [EvLog WARNING MsgMissingMetadata]) raw).
  { intros [(q & Hq & _)|(q & Hq & _)]; by apply elem_of_nil in Hq. }
  destruct (truthy title) as [title'|]; [|by rewrite Hrun].
  destruct (truthy artist) as [artist'|]; [|by rewrite Hrun].
  destruct (text0_or_None (py "TALB") _) as [alt_title|e];
    [|rewrite Hrun; intros Hh; by apply Hpre in Hh].
  destruct (text0_or_None (py "TPE2") _) as [alt_artist|e];
    [|rewrite Hrun; intros Hh; by apply Hpre in Hh].
  destruct Hrun as (found & es & Hoff & Ht & Hrun).
  pose proof (resolver_trace_hit _ _ _ _ raw Ht) as Hiff.
  destruct found as [[raw' source]|].
  2: { rewrite Hrun. cbn [snd]. rewrite provider_hit_job by done.
       intros Hh. apply Hiff in Hh as (? & ?). done. }
  destruct (clean_lyrics U raw') as [|c cleaned] eqn:Hclean.
  { rewrite Hrun. cbn [snd]. rewrite provider_hit_job by done.
    intros Hh. apply Hiff in Hh as (? & [= <- _]). done. }
  destruct Hrun as [Hrun|Hrun]; rewrite Hrun; cbn [fst snd];
    rewrite provider_hit_job by done; intros Hh _;
    apply Hiff in Hh as (? & [= <- _]); rewrite Hclean;
    eexists _, _; (split; [by rewrite saves_job|]); (split; [done|]).
  all: split; [apply lookup_insert_eq|].
  all: intros k Hk; by apply lookup_insert_ne.
Qed.


End JobFacts.



(** ** The scan *)

Lemma Entry_ind' (P : Entry → Prop) :
  (∀ name, P (File name)) →
  (∀ name sub, Forall P sub → P (Dir name sub)) →
  ∀ e, P e.
Proof.
  intros Hfile Hdir. fix IH 1. intros [name|name sub]; [apply Hfile|].
  apply Hdir. induction sub as [|e sub IHsub]; constructor; [apply IH|apply IHsub].
Qed.

Lemma elem_of_filenames name entries :
  name ∈ Path.filenames entries ↔ File name ∈ entries.
Proof.
  unfold Path.filenames. rewrite list_elem_of_omap. split.
  - intros ([n|n sub] & He & Hn); [|done]. by injection Hn as ->.
  - intros He. by exists (File name).
Qed.

Lemma elem_of_walk_entries top entries dp fs :
  (dp, fs) ∈ Path.walk_entries top entries ↔
  (dp, fs) = (top, Path.filenames entries) ∨
  ∃ d sub, Dir d sub ∈ entries ∧
           (dp, fs) ∈ Path.walk_entries (Path.join top d) sub.
Proof.
  unfold Path.walk_entries at 1. rewrite elem_of_cons.
  apply or_iff_compat_l. rewrite list_elem_of_In, in_concat. split.
  - intros (k & He & Hk). apply in_map_iff in He as ([n|d sub] & <- & He).
    + done.
    + exists d, sub. by rewrite !list_elem_of_In.
  - intros (d & sub & He & Hk). exists (Path.walk_entry top (Dir d sub)).
    rewrite in_map_iff, <- !list_elem_of_In. split; [|done].
    exists (Dir d sub). split; [done|]. by apply list_elem_of_In.
Qed.

Lemma walk_entries_under top entries dp fs name :
  (dp, fs) ∈ Path.walk_entries top entries → name ∈ fs →
  file_under top entries (Path.join dp name) name.
Proof.
  revert top dp fs.
  assert (H : Forall (λ e, ∀ d sub, e = Dir d sub → ∀ top dp fs,
                (dp, fs) ∈ Path.walk_entries top sub → name ∈ fs →
                file_under top sub (Path.join dp name) name) entries).
  { apply Forall_forall. intros e _. induction e as [n|n sub IH] using Entry_ind'.
    - done.
    - intros d sub' [= _ <-] top dp fs Hw Hn.
      apply elem_of_walk_entries in Hw as [[= -> ->]|(d' & sub' & He & Hw)].
      + by apply file_here, elem_of_filenames.
      + rewrite Forall_forall in IH.
        apply (file_below _ _ d' sub'); [done|]. by eapply (IH _ He). }
  intros top dp fs Hw Hn.
  apply elem_of_walk_entries in Hw as [[= -> ->]|(d & sub & He & Hw)].
  - by apply file_here, elem_of_filenames.
  - rewrite Forall_forall in H.
    apply (file_below _ _ d sub); [done|]. by eapply (H _ He).
Qed.

Lemma under_walk_entries top entries p name :
  file_under top entries p name →
  ∃ dp fs, (dp, fs) ∈ Path.walk_entries top entries ∧ name ∈ fs ∧
           p = Path.join dp name.
Proof.
  induction 1 as [top entries name He|top entries d sub p name He _ IH].
  - exists top, (Path.filenames entries). split; [|split; [|done]].
    + apply elem_of_walk_entries. by left.
    + by apply elem_of_filenames.
  - destruct IH as (dp & fs & Hw & Hn & ->). exists dp, fs.
    split; [|done]. apply elem_of_walk_entries. right. eauto.
Qed.

Section ScanFacts.
Variable U : Unicode.
Variable fs : FileSystem.

Lemma elem_of_collect walked p :
  p ∈ collect U walked ↔
  ∃ dp names name, (dp, names) ∈ walked ∧ name ∈ names ∧
                   is_mp3 U name = true ∧ p = Path.join dp name.
Proof.
  unfold collect. rewrite list_elem_of_In, in_concat. split.
  - intros (k & Hk & Hp).
    apply in_map_iff in Hk as ([dp names] & <- & Hw).
    apply in_map_iff in Hp as (name & <- & Hn).
    apply filter_In in Hn as [Hn Hm].
    exists dp, names, name. by rewrite !list_elem_of_In.
  - intros (dp & names & name & Hw & Hn & Hm & ->).
    exists (map (Path.join dp) (List.filter (is_mp3 U) names)). split.
    + apply in_map_iff. exists (dp, names). by rewrite <- list_elem_of_In.
    + apply in_map_iff. exists name. split; [done|].
      apply filter_In. by rewrite <- list_elem_of_In.
Qed.

(** C7, amended. A directory root queues exactly the files below it, at any
    depth, whose lower-cased name ends in ".mp3"; a root that is no
    directory and whose lower-cased name ends in ".mp3" queues itself,
    whether or not it exists; any other root logs the invalid path and
    queues nothing. *)
Theorem process_path_scan_cases root threads h :
  let run := process_path_scan U fs root threads h in
  match fs root with
  | Directory entries =>
      ∃ mp3s, run.1 = Return (Some mp3s) ∧
              ∀ p, p ∈ mp3s ↔
                   ∃ name, file_under root entries p name ∧
                           is_mp3 U name = true
  | _ =>
      if is_mp3 U root then run.1 = Return (Some [root])
      else run = (Return None, [EvLog ERROR MsgInvalidPath])
  end.
Proof.
  cbv zeta. unfold process_path_scan, Path.isdir, Path.walk.
  destruct (fs root) as [| |entries]; try by destruct (is_mp3 U root).
  eexists. split; [reflexivity|]. intros p. rewrite elem_of_collect. split.
  - intros (dp & names & name & Hw & Hn & Hm & ->). exists name.
    split; [by eapply walk_entries_under|done].
  - intros (name & Hu & Hm).
    apply under_walk_entries in Hu as (dp & names & Hw & Hn & ->).
    by exists dp, names, name.
Qed.

End ScanFacts.

(** ** The code on sample inputs *)

Example clean_lyrics_truncates :
  clean_lyrics ascii_tables Sample.verses =
  Str.join NL [py "Verse one"; py "Verse two"].
Proof. reflexivity. Qed.

Example clean_lyrics_strips_code :
  clean_lyrics ascii_tables (py "en||Hello world") = py "Hello world".
Proof. reflexivity. Qed.

Example scan_music :
  (process_path_scan ascii_tables Sample.music_disk (py "music") 4 []).1 =
  Return (Some [py "music/a.MP3"; py "music/d.mp3"; py "music/sub/b.mp3"]).
Proof. reflexivity. Qed.

Example resolver_stops_at_third_variant :
  let run := get_raw_lyrics (Sample.album_world Sample.plain) (py "Song")
               (py "Band") None false (Some (py "Album")) (Some (py "Various"))
               [] in
  run.1 = Return (Some (Sample.found_lyrics, ovh_source)) ∧
  (ovh_queries run.2).*1 =
    [(py "Song", py "Band"); (py "Song", py "Various"); (py "Album", py "Band")].
Proof. split; reflexivity. Qed.





(** C4, as stated, fails: the French lyrics frame of the file is still
    there after a successful overwrite, beside the new frame. *)
Lemma overwrite_keeps_other_lyrics :
  let run := add_lyrics_to_file ascii_tables (Sample.world Sample.with_lyrics)
               Sample.path None false true [] in
  has_USLT Sample.with_lyrics = true ∧
  run.1 = Return true ∧
  ∃ tags',
    saves run.2 = [(Sample.path, tags', true)] ∧
    tags' !! py "USLT::fra" = Some Sample.french_lyrics ∧
    lyrics_frames tags' ≠
      [USLT 3 (py "eng") (py "") (clean_lyrics ascii_tables Sample.found_lyrics)].
Proof.
  cbv zeta. split; [reflexivity|]. split; [reflexivity|].
  eexists. split; [reflexivity|]. split; [reflexivity|]. by vm_compute.
Qed.

(** C7, as stated, fails: a root that names nothing but ends in ".mp3" is
    queued as a job, and no invalid path is logged. *)
Lemma missing_mp3_root_is_queued :
  let run := process_path_scan ascii_tables Sample.empty_disk
               (py "missing.mp3") 4 [] in
  Sample.empty_disk (py "missing.mp3") = Missing ∧
  run.1 = Return (Some [py "missing.mp3"]) ∧
  logged run.2 = [MsgQueueing 1 4].
Proof. by vm_compute. Qed.


(** ** The theorems at sample inputs *)

(** C1 on a file with title and artist and no lyrics: the job saves. *)
Lemma save_only_when_due_witness :
  let run := add_lyrics_to_file ascii_tables (Sample.world Sample.plain)
               Sample.path None false false [] in
  saves run.2 ≠ [] ∧
  ∃ audio_tags raw ok,
    opens run.2 = [Opened audio_tags] ∧
    (has_USLT (tags_or_new audio_tags) = false ∨ false = true) ∧
    provider_hit run.2 raw ∧ raw ≠ [] ∧ clean_lyrics ascii_tables raw ≠ [] ∧
    saves run.2 =
      [(Sample.path,
        tags_add (USLT 3 (py "eng") (py "") (clean_lyrics ascii_tables raw))
          (tags_or_new audio_tags),
        ok)].
Proof.
  cbv zeta.
  assert (Hsaved : ∀ es : list (pystr * Tags * bool), length es = 1%nat → es ≠ [])
    by (by intros [|? ?]).
  split; [by apply Hsaved|].
  apply (save_only_when_due ascii_tables (Sample.world Sample.plain)
           Sample.path None false false []).
  by apply Hsaved.
Defined.

(** C5 on a file with French lyrics. *)
Lemma existing_lyrics_skipped_witness :
  let run := add_lyrics_to_file ascii_tables
               (Sample.world Sample.with_lyrics) Sample.path None false false
               [] in
  (opens run.2 = [Opened (Some Sample.with_lyrics)] ∧
   Sample.with_lyrics !! py "USLT::fra" = Some Sample.french_lyrics) ∧
  run.1 = Return false ∧
  logged run.2 = [MsgProcessing Sample.path; MsgExistingLyrics] ∧
  genius_queries run.2 = [] ∧ ovh_queries run.2 = [] ∧ saves run.2 = [].
Proof.
  cbv zeta. split; [split; reflexivity|].
  apply (existing_lyrics_skipped ascii_tables
           (Sample.world Sample.with_lyrics) Sample.path None false []
           Sample.with_lyrics (py "USLT::fra") 3 (py "fra") (py "")
           (py "vieux texte")); reflexivity.
Defined.

(** C4 on the same file with [overwrite] set. *)
Lemma overwrite_sets_eng_frame_witness :
  let run := add_lyrics_to_file ascii_tables
               (Sample.world Sample.with_lyrics) Sample.path None false true
               [] in
  (opens run.2 = [Opened (Some Sample.with_lyrics)] ∧
   has_USLT Sample.with_lyrics = true ∧
   provider_hit run.2 Sample.found_lyrics ∧
   clean_lyrics ascii_tables Sample.found_lyrics ≠ []) ∧
  ∃ ok tags',
    saves run.2 = [(Sample.path, tags', ok)] ∧ run.1 = Return ok ∧
    tags' !! py "USLT::eng" =
      Some (USLT 3 (py "eng") (py "")
              (clean_lyrics ascii_tables Sample.found_lyrics)) ∧
    ∀ k, k ≠ py "USLT::eng" → tags' !! k = Sample.with_lyrics !! k.
Proof.
  cbv zeta.
  assert (Hhit : provider_hit
            (add_lyrics_to_file ascii_tables (Sample.world Sample.with_lyrics)
               Sample.path None false true []).2 Sample.found_lyrics).
  { right. exists (py "Song", py "Band",
                   HttpResponse 200 (Some (Some Sample.found_lyrics))).
    split; [|reflexivity]. vm_compute. left. }
  split; [repeat split; try reflexivity; [exact Hhit|by vm_compute]|].
  apply (overwrite_sets_eng_frame ascii_tables
           (Sample.world Sample.with_lyrics) Sample.path None false []
           Sample.with_lyrics Sample.found_lyrics);
    [reflexivity|reflexivity|exact Hhit|by vm_compute].
Defined.



(** * Further properties *)

(** ** [clean_lyrics] *)

Lemma drop_while_all {A} (p : A → bool) l :
  Forall (λ x, p x = true) l → drop_while p l = [].
Proof. induction 1 as [|x l Hx _ IH]; cbn; [done|]. by rewrite Hx. Qed.

Lemma trim_fixed_head {A} (p : A → bool) l x r :
  trim p l = l → l = x :: r → p x = false.
Proof.
  intros Ht ->. apply (drop_while_head p (x :: r) x r).
  rewrite <- Ht at 1. by rewrite trim_front.
Qed.

Lemma trim_fixed_last {A} (p : A → bool) l x :
  trim p l = l → last l = Some x → p x = false.
Proof. intros Ht Hl. rewrite <- Ht in Hl. by eapply trim_last. Qed.

Lemma Forall_join (Q : N → Prop) sep ls :
  Forall Q sep → Forall (Forall Q) ls → Forall Q (Str.join sep ls).
Proof.
  intros Hsep. induction 1 as [|l ls Hl Hls IH]; [constructor|].
  destruct ls as [|l' ls]; cbn [Str.join]; [done|].
  apply Forall_app. split; [done|]. apply Forall_app. by split.
Qed.

Lemma head_join sep x xs c :
  head x = Some c → head (Str.join sep (x :: xs)) = Some c.
Proof.
  destruct x as [|d x]; [done|]. intros [= ->].
  by destruct xs.
Qed.

Lemma last_join sep ls x c :
  last ls = Some x → last x = Some c → last (Str.join sep ls) = Some c.
Proof.
  induction ls as [|l ls IH]; [done|].
  destruct ls as [|l' ls].
  - cbn [Str.join]. by intros [= ->].
  - change (Str.join sep (l :: l' :: ls))
      with (l ++ sep ++ Str.join sep (l' :: ls)).
    rewrite last_cons_cons. intros Hl Hc. specialize (IH Hl Hc).
    by rewrite !last_app, IH.
Qed.

Lemma strip_fixed_front s : Str.strip s = s → drop_while Str.is_space s = s.
Proof. intros <-. apply (trim_front Str.is_space). Qed.

Lemma strip_fixed_back s : Str.strip s = s → drop_while_end Str.is_space s = s.
Proof. intros <-. apply (trim_back Str.is_space). Qed.

Lemma drop_while_app {A} (p : A → bool) x y :
  drop_while p (x ++ y) =
  match drop_while p x with
  | [] => drop_while p y
  | r => r ++ y
  end.
Proof.
  induction x as [|a x IH]; cbn; [done|]. by destruct (p a).
Qed.

Lemma drop_while_end_cons {A} (p : A → bool) a l :
  drop_while_end p (a :: l) =
  match drop_while_end p l with
  | [] => if p a then [] else [a]
  | r => a :: r
  end.
Proof.
  unfold drop_while_end. rewrite reverse_cons, drop_while_app.
  destruct (drop_while p (reverse l)) as [|b r] eqn:Hd.
  - cbn. by destruct (p a).
  - rewrite reverse_app, reverse_singleton. cbn [app].
    destruct (reverse (b :: r)) eqn:Hr; [|done].
    apply (f_equal reverse) in Hr. by rewrite reverse_involutive in Hr.
Qed.

Lemma drop_while_end_app {A} (p : A → bool) a b x :
  last a = Some x → p x = false →
  drop_while_end p (a ++ b) = a ++ drop_while_end p b.
Proof.
  intros Hl Hx. induction a as [|c a IH]; [done|].
  cbn [app]. rewrite drop_while_end_cons.
  destruct a as [|c' a].
  - injection Hl as ->. cbn [app]. rewrite Hx.
    by destruct (drop_while_end p b).
  - rewrite IH by done. done.
Qed.

Lemma drop_while_end_prefix {A} (p : A → bool) l :
  drop_while_end p l `prefix_of` l.
Proof.
  unfold drop_while_end.
  destruct (drop_while_suffix p (reverse l)) as [k Hk].
  exists (reverse k). apply (f_equal reverse) in Hk.
  by rewrite reverse_involutive, reverse_app in Hk.
Qed.

(** The two ends are stripped independently of each other. *)
Lemma drop_while_ends_comm {A} (p : A → bool) l :
  drop_while p (drop_while_end p l) = drop_while_end p (drop_while p l).
Proof.
  induction l as [|a l IH]; [done|].
  rewrite drop_while_end_cons. cbn [drop_while].
  destruct (p a) eqn:Ha.
  - rewrite <- IH. destruct (drop_while_end p l); [done|]. cbn. by rewrite Ha.
  - rewrite drop_while_end_cons.
    destruct (drop_while_end p l); cbn; by rewrite Ha.
Qed.

Lemma contains_strip p s :
  Str.contains p (Str.strip s) = true → Str.contains p s = true.
Proof.
  intros H. unfold Str.strip, Str.rstrip, Str.lstrip in H.
  eapply contains_suffix; [apply (drop_while_suffix Str.is_space)|].
  destruct (drop_while_end_prefix Str.is_space (drop_while Str.is_space s))
    as [k Hk].
  rewrite Hk. by apply contains_app_l.
Qed.

Lemma az_ci_plain c :
  Re.az_ci c = true →
  Str.is_space c = false ∧ Str.is_linebreak c = false ∧ (124 =? c) = false.
Proof.
  unfold Re.az_ci, Str.is_space, Str.is_linebreak. intros H.
  repeat (apply orb_prop in H as [H|H]);
    repeat match goal with
           | H : _ && _ = true |- _ => apply andb_prop in H as [? ?]
           | H : (_ <=? _) = true |- _ => apply N.leb_le in H
           | H : (_ =? _) = true |- _ => apply N.eqb_eq in H
           end.
  all: repeat split.
  all: repeat match goal with
              | |- _ || _ = false => apply orb_false_intro
              | |- _ && _ = false => apply andb_false_iff
              end.
  all: try (apply N.eqb_neq; lia).
  all: try (left; apply N.leb_gt; lia).
  all: try (right; apply N.leb_gt; lia).
Qed.

Section MoreClean.
Variable U : Unicode.

(** The list [out] of [clean_lyrics] at its [return]. *)
Lemma cleaned_out s :
  let out := trim blank (clean_loop U (Str.splitlines s) []) in
  clean_lyrics U s = Str.join NL out ∧
  Str.splitlines (clean_lyrics U s) = out ∧
  trim blank out = out ∧
  Forall (λ x, unbroken x ∧ Str.strip x = x ∧ kept U x = true) out.
Proof.
  cbv zeta.
  assert (Hout : Forall (λ x, unbroken x ∧ Str.strip x = x ∧ kept U x = true)
                   (trim blank (clean_loop U (Str.splitlines s) []))).
  { apply trim_Forall.
    eapply Forall_impl; [apply clean_loop_kept|].
    intros x [(l & Hl & ->) Hk].
    split; [|split; [apply rewrite_line_stripped|done]].
    apply rewrite_line_Forall.
    pose proof (splitlines_unbroken s) as Hs.
    rewrite Forall_forall in Hs. by apply Hs. }
  assert (Heq : clean_lyrics U s =
                Str.join NL (trim blank (clean_loop U (Str.splitlines s) [])))
    by reflexivity.
  split; [done|]. split; [|split; [apply trim_idemp|done]].
  rewrite Heq. apply splitlines_join.
  - eapply Forall_impl; [exact Hout|]. by intros ? [? _].
  - intros x Hx. by apply blank_false_nonempty, (trim_last blank _ _ Hx).
Qed.

Lemma cleaned_lines s :
  ∃ out,
    clean_lyrics U s = Str.join NL out ∧
    Str.splitlines (clean_lyrics U s) = out ∧
    trim blank out = out ∧
    Forall (λ x, unbroken x ∧ Str.strip x = x ∧ kept U x = true) out.
Proof. eexists. apply cleaned_out. Qed.

(** X1. Every line of the cleaned text is stripped, holds none of the
    boilerplate phrases in its lower-cased form and does not start, in lower
    case, with "you might also like". *)
Theorem clean_lyrics_lines_kept s :
  Forall (λ x, Str.strip x = x ∧ kept U x = true)
    (Str.splitlines (clean_lyrics U s)).
Proof.
  destruct (cleaned_lines s) as (out & _ & -> & _ & Hout).
  eapply Forall_impl; [exact Hout|]. by intros x (_ & ? & ?).
Qed.

(** X2. The cleaned text has no white space at its start or end. *)
Theorem clean_lyrics_stripped s :
  Str.strip (clean_lyrics U s) = clean_lyrics U s.
Proof.
  destruct (cleaned_lines s) as (out & -> & _ & Htrim & Hout).
  assert (Hfront : drop_while Str.is_space (Str.join NL out) = Str.join NL out).
  { apply drop_while_fixed. intros c r Hc.
    destruct out as [|x xs]; [done|].
    assert (Hx : blank x = false) by (by eapply trim_fixed_head).
    apply Forall_cons in Hout as [(_ & Hs & _) _].
    destruct x as [|d x]; [done|].
    assert (c = d) as -> by (destruct xs; cbn in Hc; congruence).
    apply strip_fixed_front in Hs. by eapply drop_while_head. }
  assert (Hback :
    drop_while_end Str.is_space (Str.join NL out) = Str.join NL out).
  { apply drop_while_end_fixed. intros c Hc.
    destruct (last out) as [x|] eqn:Hx.
    2: { apply last_None in Hx as ->. done. }
    assert (Hb : blank x = false) by (by eapply trim_fixed_last).
    assert (Hs : Str.strip x = x).
    { rewrite Forall_forall in Hout. by apply Hout, last_Some_elem_of. }
    destruct (last x) as [d|] eqn:Hd.
    2: { apply last_None in Hd as ->. done. }
    rewrite (last_join _ _ _ _ Hx Hd) in Hc. injection Hc as <-.
    apply strip_fixed_back in Hs. rewrite <- Hs in Hd.
    by eapply drop_while_end_last. }
  unfold Str.strip, Str.rstrip, Str.lstrip. by rewrite Hfront, Hback.
Qed.

(** X3. The only line boundary of the cleaned text is the newline: all
    other boundaries of the raw text (CR, CR LF, VT, FF, ...) are gone. *)
Theorem clean_lyrics_newlines_only s :
  Forall (λ c, Str.is_linebreak c = true → c = 10) (clean_lyrics U s).
Proof.
  destruct (cleaned_lines s) as (out & -> & _ & _ & Hout).
  apply Forall_join; [by repeat constructor|].
  eapply Forall_impl; [exact Hout|]. intros x (Hx & _).
  eapply Forall_impl; [exact Hx|]. cbn. intros c Hc. by rewrite Hc.
Qed.

Lemma clean_loop_cut before l after :
  ends_lyrics U l = true →
  clean_loop U (before ++ l :: after) [] = clean_loop U before [].
Proof.
  unfold ends_lyrics, dropped. intros [Hd He]%andb_prop.
  apply negb_true_iff in Hd.
  induction before as [|b before IH]; cbn [app clean_loop]; cbv zeta.
  - by rewrite Hd, He.
  - destruct (existsb _ (_ : list pystr)) in |- *; [done|].
    destruct (Str.startswith _ (lower U (rewrite_line U b))); [done|].
    rewrite clean_loop_app, (clean_loop_app _ before). by rewrite IH.
Qed.

Lemma clean_loop_skip before l after :
  dropped U l = true →
  clean_loop U (before ++ l :: after) [] = clean_loop U (before ++ after) [].
Proof.
  unfold dropped. intros Hd.
  induction before as [|b before IH]; cbn [app clean_loop]; cbv zeta.
  - by rewrite Hd.
  - destruct (existsb _ (_ : list pystr)) in |- *; [done|].
    destruct (Str.startswith _ (lower U (rewrite_line U b))); [done|].
    rewrite clean_loop_app, (clean_loop_app _ (before ++ after)). by rewrite IH.
Qed.

(** X4. Nothing from the first line on that ends the lyrics reaches the
    result: the text cleans like the lines before that line. *)
Theorem clean_lyrics_cut_at_marker s s' before l after :
  Str.splitlines s = before ++ l :: after →
  ends_lyrics U l = true →
  Str.splitlines s' = before →
  clean_lyrics U s = clean_lyrics U s'.
Proof.
  intros Hs Hl Hs'. unfold clean_lyrics. cbv zeta.
  by rewrite Hs, Hs', clean_loop_cut.
Qed.

(** X5. A line that holds a boilerplate phrase counts for nothing: the
    text cleans like the text without that line. *)
Theorem clean_lyrics_drops_boilerplate s s' before l after :
  Str.splitlines s = before ++ l :: after →
  dropped U l = true →
  Str.splitlines s' = before ++ after →
  clean_lyrics U s = clean_lyrics U s'.
Proof.
  intros Hs Hl Hs'. unfold clean_lyrics. cbv zeta.
  by rewrite Hs, Hs', clean_loop_skip.
Qed.

Lemma rewrite_line_blank l : blank l = true → rewrite_line U l = [].
Proof.
  unfold blank, rewrite_line. destruct (Str.strip l); [|done]. done.
Qed.

(** X6. A text of blank lines only, the empty text among them, cleans to
    the empty text. *)
Theorem clean_lyrics_blank s :
  Forall (λ l, blank l = true) (Str.splitlines s) → clean_lyrics U s = [].
Proof.
  intros Hs. unfold clean_lyrics. cbv zeta.
  unfold pop_back_blank, pop_front_blank.
  rewrite drop_while_all; [done|].
  eapply Forall_impl; [apply clean_loop_kept|].
  intros x [(l & Hl & ->) _]. rewrite Forall_forall in Hs.
  by rewrite rewrite_line_blank by auto.
Qed.

Lemma strip_plain s :
  Forall (λ c, Str.is_space c = false) s → Str.strip s = s.
Proof.
  intros Hs. unfold Str.strip, Str.rstrip, Str.lstrip.
  rewrite (drop_while_fixed Str.is_space s).
  - apply drop_while_end_fixed. intros x Hx%last_Some_elem_of.
    rewrite Forall_forall in Hs. auto.
  - intros x r ->. by apply Forall_cons in Hs as [? _].
Qed.

Lemma strip_rstrip s : Str.strip (Str.rstrip s) = Str.strip s.
Proof.
  unfold Str.strip, Str.rstrip, Str.lstrip.
  rewrite drop_while_ends_comm. apply (trim_back Str.is_space).
Qed.

Lemma split1_code code rest :
  Forall (λ c, (124 =? c) = false) code →
  Str.split1 (py "||") (code ++ py "||" ++ rest) = [code; rest].
Proof.
  change (py "||") with [124; 124].
  induction 1 as [|c code Hc _ IH]; [done|].
  cbn [app Str.split1 Str.startswith]. rewrite Hc. cbn [andb].
  cbn [app] in IH. by rewrite IH.
Qed.

Lemma fullmatch_code_letters code :
  Re.fullmatch_code code = true →
  Forall (λ c, Re.az_ci c = true) code ∧
  ∃ a b, last code = Some b ∧ head code = Some a.
Proof.
  unfold Re.fullmatch_code. intros [Hf Hl]%andb_prop.
  split.
  { apply Forall_forall. intros c Hc%list_elem_of_In.
    by apply (proj1 (forallb_forall _ _) Hf). }
  destruct code as [|a [|b [|c [|]]]]; try done; eauto.
Qed.

(** The value of [line] for a raw line made of a language code, the
    separator, and a text without a further separator. *)
Lemma rewrite_line_code code text :
  Re.fullmatch_code code = true →
  Str.contains (py "||") text = false →
  rewrite_line U (code ++ py "||" ++ text) = Str.strip text.
Proof.
  intros Hcode Htext.
  destruct (fullmatch_code_letters code Hcode) as (Haz & a & b & Hb & Ha).
  assert (Hplain : Forall (λ c, Str.is_space c = false) code).
  { eapply Forall_impl; [exact Haz|]. intros c Hc. by apply az_ci_plain. }
  assert (Hbar : Forall (λ c, (124 =? c) = false) code).
  { eapply Forall_impl; [exact Haz|]. intros c Hc. by apply az_ci_plain. }
  assert (Hstrip : Str.strip (code ++ py "||" ++ text) =
                   code ++ py "||" ++ Str.rstrip text).
  { unfold Str.strip, Str.lstrip.
    rewrite (drop_while_fixed Str.is_space).
    - unfold Str.rstrip. rewrite !app_assoc.
      rewrite (drop_while_end_app _ _ _ 124); [done| |done].
      by rewrite last_app.
    - intros x r Hx. destruct code as [|c code]; [done|].
      injection Hx as <- _. by apply Forall_cons in Hplain as [? _]. }
  unfold rewrite_line. rewrite Hstrip.
  assert (Str.contains (py "||") (code ++ py "||" ++ Str.rstrip text) = true)
    as -> by (by apply contains_app_r, contains_app_l).
  rewrite split1_code, (strip_plain code), Hcode, strip_rstrip by done.
  rewrite sub_prefix_fixed; [apply strip_idemp|].
  destruct (Str.contains (py "||") (Str.strip text)) eqn:Hc; [|done].
  apply contains_strip in Hc. congruence.
Qed.

(** X7. A line that is a language code of two or three letters, "||" and
    a text without "||" cleans to the stripped text, or to nothing when
    that text is boilerplate or the end marker. *)
Theorem clean_lyrics_strips_language_code code text :
  Re.fullmatch_code code = true →
  unbroken text →
  Str.contains (py "||") text = false →
  clean_lyrics U (code ++ py "||" ++ text) =
  if kept U (Str.strip text) then Str.strip text else [].
Proof.
  intros Hcode Hunb Htext.
  destruct (fullmatch_code_letters code Hcode) as (Haz & a & b & Hb & Ha).
  assert (Hlines : Str.splitlines (code ++ py "||" ++ text) =
                   [code ++ py "||" ++ text]).
  { apply (splitlines_join [code ++ py "||" ++ text]).
    - repeat constructor. apply Forall_app. split.
      + eapply Forall_impl; [exact Haz|]. intros c Hc. by apply az_ci_plain.
      + apply Forall_app. split; [by repeat constructor|done].
    - intros x [= <-]. by destruct code. }
  unfold clean_lyrics. cbv zeta. rewrite Hlines.
  cbn [clean_loop]. cbv zeta. rewrite rewrite_line_code by done.
  unfold kept.
  destruct (existsb _ (_ : list pystr)); [done|].
  destruct (Str.startswith _ (lower U _)); [done|].
  cbn [negb andb app clean_loop].
  unfold pop_back_blank, pop_front_blank. fold (trim blank [Str.strip text]).
  unfold trim, drop_while_end. cbn [drop_while].
  destruct (blank (Str.strip text)) eqn:Hblank.
  - unfold blank in Hblank. rewrite strip_idemp in Hblank.
    by destruct (Str.strip text).
  - cbn. by rewrite Hblank.
Qed.

(** [x] is a run of consecutive characters of [l]. *)
Lemma part_of_refl (l : pystr) : ∃ a b, l = a ++ l ++ b.
Proof. exists [], []. by rewrite app_nil_r. Qed.

Lemma part_of_trans (x y l : pystr) :
  (∃ a b, y = a ++ x ++ b) → (∃ a b, l = a ++ y ++ b) →
  ∃ a b, l = a ++ x ++ b.
Proof.
  intros (a & b & ->) (a' & b' & ->). exists (a' ++ a), (b ++ b').
  by rewrite <- !app_assoc.
Qed.

Lemma part_of_suffix (x l : pystr) : x `suffix_of` l → ∃ a b, l = a ++ x ++ b.
Proof. intros [k ->]. exists k, []. by rewrite app_nil_r. Qed.

Lemma part_of_strip (l : pystr) : ∃ a b, l = a ++ Str.strip l ++ b.
Proof.
  unfold Str.strip, Str.rstrip, Str.lstrip.
  destruct (drop_while_suffix Str.is_space l) as [a Ha].
  destruct (drop_while_end_prefix Str.is_space (drop_while Str.is_space l))
    as [b Hb].
  exists a, b. by rewrite <- Hb.
Qed.

Lemma split1_suffix sep s before after :
  Str.split1 sep s = [before; after] → after `suffix_of` s.
Proof.
  revert before. induction s as [|c s IH]; intros before; cbn [Str.split1].
  - destruct (Str.startswith sep []); [|done].
    intros [= _ <-]. apply suffix_drop.
  - destruct (Str.startswith sep (c :: s)).
    + intros [= _ <-]. apply suffix_drop.
    + destruct (Str.split1 sep s) as [|b [|r [|]]]; try done.
      intros [= _ <-]. by apply suffix_cons_r, (IH b).
Qed.

Lemma part_of_rewrite_line l : ∃ a b, l = a ++ rewrite_line U l ++ b.
Proof.
  unfold rewrite_line.
  eapply part_of_trans; [apply part_of_strip|].
  eapply part_of_trans.
  { apply part_of_suffix. unfold Re.sub_prefix.
    destruct (Re.match_prefix U _) as [r|] eqn:Hm; [|done].
    by apply match_prefix_sep in Hm as [_ ?]. }
  destruct (Str.contains _ _); [|apply part_of_strip].
  destruct (Str.split1 _ _) as [|prefix [|rest [|]]] eqn:Hsplit;
    try apply part_of_strip.
  destruct (Re.fullmatch_code _); [|apply part_of_strip].
  eapply part_of_trans; [apply part_of_strip|].
  eapply part_of_trans; [|apply part_of_strip].
  by eapply part_of_suffix, split1_suffix.
Qed.

(** X8. Cleaning only deletes: every line of the cleaned text is a run of
    consecutive characters of a line of the raw text. *)
Theorem clean_lyrics_only_deletes s :
  Forall (λ x, ∃ l a b, l ∈ Str.splitlines s ∧ l = a ++ x ++ b)
    (Str.splitlines (clean_lyrics U s)).
Proof.
  destruct (cleaned_out s) as (_ & -> & _ & _).
  apply trim_Forall.
  eapply Forall_impl; [apply clean_loop_kept|].
  intros x [(l & Hl & ->) _].
  destruct (part_of_rewrite_line l) as (a & b & Hab). by exists l, a, b.
Qed.

Lemma clean_loop_sublist lines :
  clean_loop U lines [] `sublist_of` rewrite_line U <$> lines.
Proof.
  induction lines as [|l lines IH]; cbn [clean_loop fmap list_fmap]; [done|].
  cbv zeta. destruct (existsb _ _); [by apply sublist_cons|].
  destruct (Str.startswith _ _); [apply sublist_nil_l|].
  rewrite clean_loop_app. cbn [app]. by apply sublist_skip.
Qed.

Lemma trim_sublist {A} (p : A → bool) (l : list A) : trim p l `sublist_of` l.
Proof.
  unfold trim.
  destruct (drop_while_end_prefix p (drop_while p l)) as [k Hk].
  destruct (drop_while_suffix p l) as [k' Hk'].
  rewrite Hk' at 2. apply sublist_inserts_l.
  rewrite Hk at 2. by apply sublist_inserts_r.
Qed.

(** X9. Cleaning keeps the order of the lines: the lines of the cleaned
    text are, in order, some of the rewritten lines of the raw text. *)
Theorem clean_lyrics_keeps_order s :
  Str.splitlines (clean_lyrics U s)
  `sublist_of` rewrite_line U <$> Str.splitlines s.
Proof.
  destruct (cleaned_out s) as (_ & -> & _ & _).
  etrans; [apply trim_sublist|apply clean_loop_sublist].
Qed.


End MoreClean.

(** ** The providers *)

Section MoreResolver.
Variable W : World.


Lemma yields_nothing_no_hit {R} (lyrics : R → option pystr) qs q :
  yields_nothing lyrics qs = true → q ∈ qs → lyrics q.2 = None.
Proof.
  unfold yields_nothing. intros Hy Hq%list_elem_of_In.
  apply (proj1 (forallb_forall _ _) Hy) in Hq. by destruct (lyrics q.2).
Qed.


(** X12. One call of [get_raw_lyrics] puts at most four queries to each
    provider and reaches no file. *)
Theorem get_raw_lyrics_query_bound T A genius use_genius T2 A2 h :
  let run := get_raw_lyrics W T A genius use_genius T2 A2 h in
  (length (genius_queries run.2) ≤ 4)%nat ∧
  (length (ovh_queries run.2) ≤ 4)%nat ∧
  off_disk run.2.
Proof.
  cbv zeta.
  destruct (get_raw_lyrics_run W T A genius use_genius T2 A2 h)
    as (found & es & -> & Hoff & Ht). cbn [fst snd].
  assert (Hlen : (length (variant_order T A T2 A2) ≤ 4)%nat).
  { unfold variant_order. destruct (truthy T2), (truthy A2); cbn; lia. }
  assert (Hscan : ∀ R (lyrics : R → option pystr) qs fo,
            scanned lyrics (variant_order T A T2 A2) qs fo →
            (length qs ≤ 4)%nat).
  { intros R lyrics qs fo Hs. apply scanned_prefix in Hs.
    apply prefix_length in Hs. rewrite length_fmap in Hs. lia. }
  split; [|split; [|done]].
  - destruct Ht as [raw He Hg Ho|fo Hg Ho]; [by eapply Hscan|].
    destruct (primary_enabled use_genius genius); [by eapply Hscan|].
    rewrite Hg. cbn. lia.
  - destruct Ht as [raw He Hg Ho|fo Hg Ho]; [|by eapply Hscan].
    rewrite Ho. cbn. lia.
Qed.

End MoreResolver.

(** ** The job *)

Lemma off_disk_touched es : off_disk es → touched es = [].
Proof.
  induction 1 as [|e es He _ IH]; [done|].
  destruct e; cbn in *; done.
Qed.

Lemma filter_Permutation {A} (f : A → bool) (l l' : list A) :
  l ≡ₚ l' → List.filter f l ≡ₚ List.filter f l'.
Proof.
  induction 1 as [|x l l' _ IH|x y l|l l' l'' _ IH1 _ IH2]; cbn.
  - done.
  - destruct (f x); [by constructor|done].
  - destruct (f x), (f y); try done. apply perm_swap.
  - by etrans.
Qed.

Lemma filter_none {A} (f : A → bool) (l : list A) :
  Forall (λ x, f x = false) l → List.filter f l = [].
Proof. induction 1 as [|x l Hx _ IH]; cbn; [done|]. by rewrite Hx. Qed.

Lemma has_USLT_false (tags : Tags) key frame :
  has_USLT tags = false → tags !! key = Some frame → is_USLT frame = false.
Proof.
  intros Hno Hk. destruct (is_USLT frame) eqn:Hf; [|done].
  by rewrite (has_USLT_lookup tags key frame Hk Hf) in Hno.
Qed.

(** A lyrics frame added to tags without one is the only one. *)
Lemma lyrics_frames_add (tags : Tags) frame :
  has_USLT tags = false → is_USLT frame = true →
  lyrics_frames (tags_add frame tags) = [frame].
Proof.
  intros Hno Hf. unfold lyrics_frames, tags_add.
  apply Permutation_singleton_r.
  rewrite <- (insert_delete_eq tags).
  rewrite (filter_Permutation _ _
             ((HashKey frame, frame) :: map_to_list (delete (HashKey frame) tags)).*2).
  2: { apply fmap_Permutation, map_to_list_insert, lookup_delete_eq. }
  cbn. rewrite Hf.
  rewrite filter_none; [done|].
  apply Forall_fmap, Forall_forall. intros [k f] Hk%elem_of_map_to_list.
  apply lookup_delete_Some in Hk as [_ Hk]. by eapply has_USLT_false.
Qed.

Lemma yields_nothing_no_provider_hit es raw :
  yields_nothing genius_lyrics (genius_queries es) = true →
  yields_nothing ovh_lyrics (ovh_queries es) = true →
  ¬ provider_hit es raw.
Proof.
  intros Hg Ho [(q & Hq & Hl)|(q & Hq & Hl)].
  - by rewrite (yields_nothing_no_hit _ _ _ Hg Hq) in Hl.
  - by rewrite (yields_nothing_no_hit _ _ _ Ho Hq) in Hl.
Qed.

Lemma first_text_tag (f1 f2 : pystr) (tags : Tags) (s : pystr) :
  first_text [f1; f2] tags = Return (Some s) →
  tag_text tags f1 s ∨ tag_text tags f2 s.
Proof.
  cbn [first_text]. destruct (tags !! f1) as [frame|] eqn:H1.
  - intros H. left. exists frame. split; [done|].
    destruct (text0 frame); cbn in H; congruence.
  - destruct (tags !! f2) as [frame|] eqn:H2; [|done].
    intros H. right. exists frame. split; [done|].
    destruct (text0 frame); cbn in H; congruence.
Qed.

Lemma text0_or_None_tag (f : pystr) (tags : Tags) (s : pystr) :
  text0_or_None f tags = Return (Some s) → tag_text tags f s.
Proof.
  unfold text0_or_None. destruct (tags !! f) as [frame|] eqn:Hf; [|done].
  intros H. exists frame. split; [done|].
  destruct (text0 frame); cbn in H; congruence.
Qed.

Lemma elem_of_variant_order (t a T A : pystr) (T2 A2 : option pystr) :
  (t, a) ∈ variant_order T A T2 A2 →
  (t = T ∨ T2 = Some t) ∧ (a = A ∨ A2 = Some a).
Proof.
  unfold variant_order.
  destruct (truthy T2) as [t2|] eqn:Ht; [apply truthy_Some in Ht as [-> _]|];
    (destruct (truthy A2) as [a2|] eqn:Ha; [apply truthy_Some in Ha as [-> _]|]);
    intros H; repeat (apply elem_of_cons in H as [[= -> ->]|H]; [by auto|]);
    by apply elem_of_nil in H.
Qed.

Section MoreJob.
Variable U : Unicode.
Variable W : World.

Lemma touched_job (pre post : list Event) es :
  off_disk es → touched (pre ++ es ++ post) = touched pre ++ touched post.
Proof.
  intros Hoff. unfold touched. rewrite !omap_app.
  fold (touched es). by rewrite (off_disk_touched es Hoff).
Qed.

Lemma logged_job (pre post : list Event) es :
  logged (pre ++ es ++ post) = logged pre ++ logged es ++ logged post.
Proof. unfold logged. by rewrite !omap_app. Qed.

(** X13. A job opens its file once, saves at most once, and reaches the
    file at [path] only. *)
Theorem job_touches_only_its_file path genius use_genius overwrite h :
  let run := add_lyrics_to_file U W path genius use_genius overwrite h in
  Forall (λ p, p = path) (touched run.2) ∧
  length (opens run.2) = 1%nat ∧ (length (saves run.2) ≤ 1)%nat.
Proof.
  cbv zeta.
  pose proof (add_lyrics_to_file_run U W path genius use_genius overwrite h)
    as Hrun.
  cbv zeta in Hrun.
  destruct (mp3_open W _ path) as [|audio_tags];
    [rewrite Hrun; by repeat constructor|].
  destruct (negb overwrite && has_USLT _);
    [rewrite Hrun; by repeat constructor|].
  destruct (first_text [py "TIT2"; _] _) as [title|e];
    [|rewrite Hrun; by repeat constructor].
  destruct (first_text [py "TPE1"; _] _) as [artist|e];
    [|rewrite Hrun; by repeat constructor].
  destruct (truthy title) as [title'|];
    [|rewrite Hrun; by repeat constructor].
  destruct (truthy artist) as [artist'|];
    [|rewrite Hrun; by repeat constructor].
  destruct (text0_or_None (py "TALB") _) as [alt_title|e];
    [|rewrite Hrun; by repeat constructor].
  destruct (text0_or_None (py "TPE2") _) as [alt_artist|e];
    [|rewrite Hrun; by repeat constructor].
  destruct Hrun as (found & es & Hoff & Ht & Hrun).
  assert (Hcase : ∀ r post,
            add_lyrics_to_file U W path genius use_genius overwrite h =
              (r, [EvLog INFO (MsgProcessing path);
                   EvOpen path (Opened audio_tags)] ++ es ++ post) →
            Forall (λ p, p = path) (touched post) →
            (length (saves post) ≤ 1)%nat → length (opens post) = 0%nat →
            Forall (λ p, p = path)
              (touched (add_lyrics_to_file U W path genius use_genius
                          overwrite h).2) ∧
            length (opens (add_lyrics_to_file U W path genius use_genius
                             overwrite h).2) = 1%nat ∧
            (length (saves (add_lyrics_to_file U W path genius use_genius
                              overwrite h).2) ≤ 1)%nat).
  { intros r post -> Hp Hs Ho. cbn [snd].
    rewrite touched_job, opens_job, saves_job by done.
    cbn. rewrite Ho. split; [by constructor|done]. }
  destruct found as [[raw source]|];
    [|eapply Hcase; [exact Hrun|by repeat constructor..]].
  destruct (clean_lyrics U raw) as [|c cleaned];
    [eapply Hcase; [exact Hrun|by repeat constructor..]|].
  destruct Hrun as [Hrun|Hrun];
    (eapply Hcase; [exact Hrun|by repeat constructor..]).
Qed.

(** X14. A file that cannot be opened costs one log line: the job returns
    [False] without a provider query or a save. *)
Theorem open_failure_returns_False path genius use_genius overwrite h :
  let run := add_lyrics_to_file U W path genius use_genius overwrite h in
  opens run.2 = [OpenError] →
  run = (Return false,
         [EvLog INFO (MsgProcessing path); EvOpen path OpenError;
          EvLog ERROR MsgOpenFailure]).
Proof.
  cbv zeta. rewrite opens_run. intros [= Hopen].
  pose proof (add_lyrics_to_file_run U W path genius use_genius overwrite h)
    as Hrun.
  cbv zeta in Hrun. by rewrite Hopen in Hrun.
Qed.

(** What a job does once a provider has answered with [raw]. *)
Lemma job_resolved path genius use_genius overwrite h raw :
  let run := add_lyrics_to_file U W path genius use_genius overwrite h in
  provider_hit run.2 raw →
  ∃ audio_tags,
    opens run.2 = [Opened audio_tags] ∧
    negb overwrite && has_USLT (tags_or_new audio_tags) = false ∧
    match clean_lyrics U raw with
    | [] =>
        run.1 = Return false ∧ saves run.2 = [] ∧
        last (logged run.2) = Some MsgCleanedEmpty
    | cleaned =>
        ∃ ok, run.1 = Return ok ∧
              saves run.2 =
                [(path,
                  tags_add (USLT 3 (py "eng") (py "") cleaned)
                    (tags_or_new audio_tags),
                  ok)]
    end.
Proof.
  cbv zeta.
  pose proof (add_lyrics_to_file_run U W path genius use_genius overwrite h)
    as Hrun.
  cbv zeta in Hrun.
  assert (Hquiet : ∀ reply post,
            ¬ provider_hit
                ([EvLog INFO (MsgProcessing path); EvOpen path reply] ++
                 omap (λ m, Some (EvLog WARNING m)) post) raw).
  { intros reply post [(q & Hq & _)|(q & Hq & _)].
    - unfold genius_queries in Hq. rewrite omap_app in Hq. cbn in Hq.
      apply list_elem_of_omap in Hq as (e & He & Hq).
      apply list_elem_of_omap in He as (m & _ & [= <-]). done.
    - unfold ovh_queries in Hq. rewrite omap_app in Hq. cbn in Hq.
      apply list_elem_of_omap in Hq as (e & He & Hq).
      apply list_elem_of_omap in He as (m & _ & [= <-]). done. }
  destruct (mp3_open W _ path) as [|audio_tags].
  { rewrite Hrun. intros [(q & Hq & _)|(q & Hq & _)];
      by apply elem_of_nil in Hq. }
  destruct (negb overwrite && has_USLT _) eqn:Hguard.
  { rewrite Hrun. intros [(q & Hq & _)|(q & Hq & _)];
      by apply elem_of_nil in Hq. }
  destruct (first_text [py "TIT2"; _] _) as [title|e];
    [|rewrite Hrun; intros Hh; by apply (Hquiet _ []) in Hh].
  destruct (first_text [py "TPE1"; _] _) as [artist|e];
    [|rewrite Hrun; intros Hh; by apply (Hquiet _ []) in Hh].
  destruct (truthy title) as [title'|];
    [|rewrite Hrun; intros Hh; by apply (Hquiet _ [MsgMissingMetadata]) in Hh].
  destruct (truthy artist) as [artist'|];
    [|rewrite Hrun; intros Hh; by apply (Hquiet _ [MsgMissingMetadata]) in Hh].
  destruct (text0_or_None (py "TALB") _) as [alt_title|e];
    [|rewrite Hrun; intros Hh; by apply (Hquiet _ []) in Hh].
  destruct (text0_or_None (py "TPE2") _) as [alt_artist|e];
    [|rewrite Hrun; intros Hh; by apply (Hquiet _ []) in Hh].
  destruct Hrun as (found & es & Hoff & Ht & Hrun).
  pose proof (resolver_trace_hit _ _ _ _ raw Ht) as Hiff.
  destruct found as [[raw' source]|].
  2: { rewrite Hrun. cbn [snd]. rewrite provider_hit_job by done.
       intros Hh. apply Hiff in Hh as (? & ?). done. }
  destruct (clean_lyrics U raw') as [|c cleaned] eqn:Hclean.
  { rewrite Hrun. cbn [fst snd]. rewrite provider_hit_job by done.
    intros Hh. apply Hiff in Hh as (? & [= <- _]). rewrite Hclean.
    exists audio_tags. rewrite opens_job, saves_job, logged_job by done.
    repeat split; try done. by rewrite !last_app. }
  destruct Hrun as [Hrun|Hrun]; rewrite Hrun; cbn [fst snd];
    rewrite provider_hit_job by done; intros Hh;
    apply Hiff in Hh as (? & [= <- _]); rewrite Hclean;
    exists audio_tags; rewrite opens_job, saves_job by done;
    (split; [done|]); (split; [done|]); eexists; split; reflexivity.
Qed.

(** X15. On a file without a lyrics frame, a provider's text that cleans
    to a non-empty text is saved as the file's one lyrics frame, whatever
    [overwrite] is, and every other frame is the one the file had. *)
Theorem first_lyrics_frame path genius use_genius overwrite h audio_tags raw :
  let run := add_lyrics_to_file U W path genius use_genius overwrite h in
  let tags := tags_or_new audio_tags in
  opens run.2 = [Opened audio_tags] →
  has_USLT tags = false →
  provider_hit run.2 raw →
  clean_lyrics U raw ≠ [] →
  ∃ ok tags',
    saves run.2 = [(path, tags', ok)] ∧ run.1 = Return ok ∧
    lyrics_frames tags' =
      [USLT 3 (py "eng") (py "") (clean_lyrics U raw)] ∧
    ∀ k, k ≠ py "USLT::eng" → tags' !! k = tags !! k.
Proof.
  cbv zeta. intros Hopen Hno Hhit Hclean.
  destruct (job_resolved path genius use_genius overwrite h raw Hhit)
    as (audio_tags' & Hopen' & _ & Hres).
  rewrite Hopen in Hopen'. injection Hopen' as <-.
  destruct (clean_lyrics U raw) as [|c cleaned]; [done|].
  destruct Hres as (ok & Hret & Hsaves).
  eexists ok, _. split; [exact Hsaves|]. split; [done|]. split.
  - by apply lyrics_frames_add.
  - intros k Hk. by apply lookup_insert_ne.
Qed.

(** X17. A provider's text that cleans to nothing is not written: the job
    logs it, saves nothing and returns [False]. *)
Theorem cleaned_empty_not_saved path genius use_genius overwrite h raw :
  let run := add_lyrics_to_file U W path genius use_genius overwrite h in
  provider_hit run.2 raw →
  clean_lyrics U raw = [] →
  run.1 = Return false ∧ saves run.2 = [] ∧
  last (logged run.2) = Some MsgCleanedEmpty.
Proof.
  cbv zeta. intros Hhit Hclean.
  destruct (job_resolved path genius use_genius overwrite h raw Hhit)
    as (audio_tags & _ & _ & Hres).
  by rewrite Hclean in Hres.
Qed.

(** X16. When the file's only lyrics frame is the one of language "eng"
    and empty description, [overwrite] replaces it: the saved tags hold
    one lyrics frame, with the cleaned text. *)
Theorem overwrite_replaces_eng_lyrics path genius use_genius h tags raw :
  let run := add_lyrics_to_file U W path genius use_genius true h in
  opens run.2 = [Opened (Some tags)] →
  has_USLT (delete (py "USLT::eng") tags) = false →
  provider_hit run.2 raw →
  clean_lyrics U raw ≠ [] →
  ∃ ok tags',
    saves run.2 = [(path, tags', ok)] ∧ run.1 = Return ok ∧
    lyrics_frames tags' = [USLT 3 (py "eng") (py "") (clean_lyrics U raw)].
Proof.
  cbv zeta. intros Hopen Hno Hhit Hclean.
  destruct (job_resolved path genius use_genius true h raw Hhit)
    as (audio_tags' & Hopen' & _ & Hres).
  rewrite Hopen in Hopen'. injection Hopen' as <-.
  destruct (clean_lyrics U raw) as [|c cleaned]; [done|].
  destruct Hres as (ok & Hret & Hsaves).
  eexists ok, _. split; [exact Hsaves|]. split; [done|].
  cbn [tags_or_new].
  pose proof (lyrics_frames_add (delete (py "USLT::eng") tags)
                (USLT 3 (py "eng") (py "") (c :: cleaned)) Hno eq_refl) as Hl.
  unfold tags_add in *.
  change (HashKey (USLT 3 (py "eng") (py "") (c :: cleaned)))
    with (py "USLT::eng") in *.
  by rewrite insert_delete_eq in Hl.
Qed.

Lemma queries_job (pre post : list Event) es :
  genius_queries pre = [] → ovh_queries pre = [] →
  genius_queries post = [] → ovh_queries post = [] →
  genius_queries (pre ++ es ++ post) = genius_queries es ∧
  ovh_queries (pre ++ es ++ post) = ovh_queries es.
Proof.
  intros Hg1 Ho1 Hg2 Ho2. unfold genius_queries, ovh_queries in *.
  by rewrite !omap_app, Hg1, Hg2, Ho1, Ho2, !app_nil_r.
Qed.

(** X18. When the fallback provider was asked and no reply of either
    provider carried lyrics, the job logs that it found none, saves
    nothing and returns [False]. *)
Theorem no_lyrics_not_saved path genius use_genius overwrite h :
  let run := add_lyrics_to_file U W path genius use_genius overwrite h in
  ovh_queries run.2 ≠ [] →
  yields_nothing genius_lyrics (genius_queries run.2) = true →
  yields_nothing ovh_lyrics (ovh_queries run.2) = true →
  run.1 = Return false ∧ saves run.2 = [] ∧
  last (logged run.2) = Some MsgNoLyrics.
Proof.
  cbv zeta.
  pose proof (add_lyrics_to_file_run U W path genius use_genius overwrite h)
    as Hrun.
  cbv zeta in Hrun.
  destruct (mp3_open W _ path) as [|audio_tags]; [by rewrite Hrun|].
  destruct (negb overwrite && has_USLT _); [by rewrite Hrun|].
  destruct (first_text [py "TIT2"; _] _) as [title|e]; [|by rewrite Hrun].
  destruct (first_text [py "TPE1"; _] _) as [artist|e]; [|by rewrite Hrun].
  destruct (truthy title) as [title'|]; [|by rewrite Hrun].
  destruct (truthy artist) as [artist'|]; [|by rewrite Hrun].
  destruct (text0_or_None (py "TALB") _) as [alt_title|e]; [|by rewrite Hrun].
  destruct (text0_or_None (py "TPE2") _) as [alt_artist|e]; [|by rewrite Hrun].
  destruct Hrun as (found & es & Hoff & Ht & Hrun).
  intros _ Hg Ho.
  assert (Hnone : found = None).
  { destruct found as [[raw source]|]; [|done].
    assert (Hhit : provider_hit es raw) by (eapply resolver_trace_hit; eauto).
    exfalso. apply (yields_nothing_no_provider_hit _ raw Hg Ho).
    destruct (clean_lyrics U raw); [|destruct Hrun as [Hrun|Hrun]];
      rewrite Hrun; cbn [snd]; by rewrite provider_hit_job. }
  subst found. rewrite Hrun. cbn [fst snd].
  rewrite saves_job, logged_job by done. repeat split; try done.
  by rewrite !last_app.
Qed.

(** X19. The only strings a job sends to a provider are item 0 of the
    file's own TIT2 or TALB frame as the title and item 0 of its TPE1 or
    TPE2 frame as the artist. *)
Theorem queries_come_from_tags path genius use_genius overwrite h
    audio_tags t a :
  let run := add_lyrics_to_file U W path genius use_genius overwrite h in
  let tags := tags_or_new audio_tags in
  opens run.2 = [Opened audio_tags] →
  (t, a) ∈ (genius_queries run.2).*1 ++ (ovh_queries run.2).*1 →
  (tag_text tags (py "TIT2") t ∨ tag_text tags (py "TALB") t) ∧
  (tag_text tags (py "TPE1") a ∨ tag_text tags (py "TPE2") a).
Proof.
  cbv zeta. rewrite opens_run. intros [= Hopen].
  pose proof (add_lyrics_to_file_run U W path genius use_genius overwrite h)
    as Hrun.
  cbv zeta in Hrun. rewrite Hopen in Hrun.
  destruct (negb overwrite && has_USLT _);
    [rewrite Hrun; intros H; by apply elem_of_nil in H|].
  destruct (first_text [py "TIT2"; _] _) as [title|e] eqn:Htitle;
    [|rewrite Hrun; intros H; by apply elem_of_nil in H].
  destruct (first_text [py "TPE1"; _] _) as [artist|e] eqn:Hartist;
    [|rewrite Hrun; intros H; by apply elem_of_nil in H].
  destruct (truthy title) as [title'|] eqn:Ht';
    [|rewrite Hrun; intros H; by apply elem_of_nil in H].
  destruct (truthy artist) as [artist'|] eqn:Ha';
    [|rewrite Hrun; intros H; by apply elem_of_nil in H].
  destruct (text0_or_None (py "TALB") _) as [alt_title|e] eqn:Halt;
    [|rewrite Hrun; intros H; by apply elem_of_nil in H].
  destruct (text0_or_None (py "TPE2") _) as [alt_artist|e] eqn:Halt';
    [|rewrite Hrun; intros H; by apply elem_of_nil in H].
  destruct Hrun as (found & es & Hoff & Ht & Hrun).
  apply truthy_Some in Ht' as [-> _]. apply truthy_Some in Ha' as [-> _].
  assert (Hq : ∀ post,
            genius_queries post = [] → ovh_queries post = [] →
            (t, a) ∈ (genius_queries
                        ([EvLog INFO (MsgProcessing path);
                          EvOpen path (Opened audio_tags)] ++ es ++ post)).*1 ++
                     (ovh_queries
                        ([EvLog INFO (MsgProcessing path);
                          EvOpen path (Opened audio_tags)] ++ es ++ post)).*1 →
            (t, a) ∈ variant_order title' artist' alt_title alt_artist).
  { intros post Hg Ho.
    destruct (queries_job [EvLog INFO (MsgProcessing path);
                           EvOpen path (Opened audio_tags)] post es)
      as [-> ->]; try done.
    assert (Hpre : ∀ R (lyrics : R → option pystr) qs fo,
              scanned lyrics (variant_order title' artist' alt_title alt_artist)
                qs fo →
              (t, a) ∈ qs.*1 →
              (t, a) ∈ variant_order title' artist' alt_title alt_artist).
    { intros R lyrics qs fo Hs%scanned_prefix Hin.
      destruct Hs as [k ->]. apply elem_of_app. by left. }
    intros [Hin|Hin]%elem_of_app.
    - destruct Ht as [raw He Hg' Ho'|fo Hg' Ho']; [by eapply Hpre|].
      revert Hg'. destruct (primary_enabled use_genius genius); intros Hg';
        [by eapply Hpre|].
      rewrite Hg' in Hin. by apply elem_of_nil in Hin.
    - destruct Ht as [raw He Hg' Ho'|fo Hg' Ho']; [|by eapply Hpre].
      rewrite Ho' in Hin. by apply elem_of_nil in Hin. }
  assert (Hfrom : (t, a) ∈ variant_order title' artist' alt_title alt_artist →
            (tag_text (tags_or_new audio_tags) (py "TIT2") t
             ∨ tag_text (tags_or_new audio_tags) (py "TALB") t)
            ∧ (tag_text (tags_or_new audio_tags) (py "TPE1") a
               ∨ tag_text (tags_or_new audio_tags) (py "TPE2") a)).
  { intros [Ht0 Ha0]%elem_of_variant_order. split.
    - destruct Ht0 as [->| ->]; [by apply first_text_tag|].
      right. by apply text0_or_None_tag.
    - destruct Ha0 as [->| ->]; [by apply first_text_tag|].
      right. by apply text0_or_None_tag. }
  destruct found as [[raw source]|];
    [|rewrite Hrun; cbn [snd]; intros H;
      refine (Hfrom (Hq _ _ _ H)); reflexivity].
  destruct (clean_lyrics U raw);
    [rewrite Hrun; cbn [snd]; intros H;
     refine (Hfrom (Hq _ _ _ H)); reflexivity|].
  destruct Hrun as [Hrun|Hrun]; rewrite Hrun; cbn [snd]; intros H;
    refine (Hfrom (Hq _ _ _ H)); reflexivity.
Qed.

End MoreJob.

(** ** The scan *)

Lemma join_prefix a b :
  Str.startswith (py "/") b = false → a `prefix_of` Path.join a b.
Proof.
  intros Hb. unfold Path.join. rewrite Hb.
  destruct a as [|c a]; [apply prefix_nil|].
  destruct (Str.endswith _ _); by eexists.
Qed.

Lemma slashless_start name :
  slashless name = true → Str.startswith (py "/") name = false.
Proof.
  change (py "/") with [47].
  destruct name as [|c name]; [done|]. cbn [slashless forallb Str.startswith].
  intros [Hc _]%andb_prop. apply negb_true_iff in Hc.
  by rewrite N.eqb_sym, Hc.
Qed.

Lemma well_named_elem e entries :
  forallb well_named entries = true → e ∈ entries → well_named e = true.
Proof.
  intros Hall He%list_elem_of_In. by apply (proj1 (forallb_forall _ _) Hall).
Qed.

Lemma file_under_prefix top entries p name :
  file_under top entries p name →
  forallb well_named entries = true → top `prefix_of` p.
Proof.
  induction 1 as [top entries name He|top entries d sub p name He _ IH];
    intros Hok.
  - apply join_prefix, slashless_start.
    apply (well_named_elem _ _ Hok He).
  - pose proof (well_named_elem _ _ Hok He) as Hd. cbn in Hd.
    apply andb_prop in Hd as [Hd Hsub].
    etrans; [|by apply IH]. by apply join_prefix, slashless_start.
Qed.

Section MoreScan.
Variable U : Unicode.
Variable fs : FileSystem.

Lemma collect_no_mp3 walked : no_mp3 U walked = true → collect U walked = [].
Proof.
  unfold no_mp3, collect.
  induction walked as [|[dp names] walked IH]; [done|].
  cbn. intros [Hn Hw]%andb_prop. rewrite IH by done.
  rewrite filter_none; [done|].
  apply Forall_forall. intros f Hf%list_elem_of_In.
  apply (proj1 (forallb_forall _ _) Hn) in Hf. by apply negb_true_iff.
Qed.

(** X22. A directory in which no file name ends in ".mp3", an empty
    directory among them, is no error: the scan queues nothing and logs
    that it queues 0 files. *)
Theorem scan_without_mp3 root threads h :
  Path.isdir fs root = true →
  no_mp3 U (Path.walk fs root) = true →
  process_path_scan U fs root threads h =
  (Return (Some []), [EvLog INFO (MsgQueueing 0 threads)]).
Proof.
  intros Hdir Hno. unfold process_path_scan.
  by rewrite Hdir, collect_no_mp3.
Qed.

(** X23. Every path queued from a directory root starts with the root:
    the scan never leaves the directory it was given. *)
Theorem scan_stays_under_root root threads h entries mp3s :
  fs root = Directory entries →
  forallb well_named entries = true →
  (process_path_scan U fs root threads h).1 = Return (Some mp3s) →
  Forall (λ p, root `prefix_of` p) mp3s.
Proof.
  intros Hroot Hok.
  assert ((process_path_scan U fs root threads h).1 =
          Return (Some (collect U (Path.walk_entries root entries)))) as ->.
  { unfold process_path_scan, Path.isdir, Path.walk. by rewrite Hroot. }
  intros [= <-].
  apply Forall_forall. intros p Hp.
  apply elem_of_collect in Hp as (dp & names & name & Hw & Hn & _ & ->).
  eapply file_under_prefix; [|done]. by eapply walk_entries_under.
Qed.

End MoreScan.

(** ** The further properties at sample inputs *)

(** X4 on the sample verses. *)
Lemma clean_lyrics_cut_at_marker_witness :
  (Str.splitlines Sample.verses =
     [py "Verse one"; py "Verse two"] ++
     py "You Might Also Like" :: [py "Other Song"] ∧
   ends_lyrics ascii_tables (py "You Might Also Like") = true ∧
   Str.splitlines (Str.join NL [py "Verse one"; py "Verse two"]) =
     [py "Verse one"; py "Verse two"]) ∧
  clean_lyrics ascii_tables Sample.verses =
  clean_lyrics ascii_tables (Str.join NL [py "Verse one"; py "Verse two"]).
Proof.
  split; [repeat split; reflexivity|].
  apply (clean_lyrics_cut_at_marker ascii_tables Sample.verses
           (Str.join NL [py "Verse one"; py "Verse two"])
           [py "Verse one"; py "Verse two"] (py "You Might Also Like")
           [py "Other Song"]); reflexivity.
Defined.

(** X5 on an attribution line before one verse. *)
Lemma clean_lyrics_drops_boilerplate_witness :
  (Str.splitlines (Str.join NL [More.boilerplate; py "Hello"]) =
     [] ++ More.boilerplate :: [py "Hello"] ∧
   dropped ascii_tables More.boilerplate = true ∧
   Str.splitlines (py "Hello") = [] ++ [py "Hello"]) ∧
  clean_lyrics ascii_tables (Str.join NL [More.boilerplate; py "Hello"]) =
  clean_lyrics ascii_tables (py "Hello").
Proof.
  split; [repeat split; reflexivity|].
  apply (clean_lyrics_drops_boilerplate ascii_tables
           (Str.join NL [More.boilerplate; py "Hello"]) (py "Hello")
           [] More.boilerplate [py "Hello"]); reflexivity.
Defined.

(** X6 on three blank lines. *)
Lemma clean_lyrics_blank_witness :
  Forall (λ l, blank l = true)
    (Str.splitlines (Str.join NL [py "  "; py ""; py " "])) ∧
  clean_lyrics ascii_tables (Str.join NL [py "  "; py ""; py " "]) = [].
Proof.
  assert (H : Forall (λ l, blank l = true)
                (Str.splitlines (Str.join NL [py "  "; py ""; py " "])))
    by (vm_compute; repeat constructor).
  split; [exact H|].
  exact (clean_lyrics_blank ascii_tables _ H).
Defined.

(** X7 on "en|| Hello world ". *)
Lemma clean_lyrics_strips_language_code_witness :
  (Re.fullmatch_code (py "en") = true ∧
   unbroken (py " Hello world ") ∧
   Str.contains (py "||") (py " Hello world ") = false) ∧
  clean_lyrics ascii_tables (py "en" ++ py "||" ++ py " Hello world ") =
  py "Hello world".
Proof.
  assert (H : unbroken (py " Hello world ")) by (vm_compute; repeat constructor).
  split; [split; [reflexivity|split; [exact H|reflexivity]]|].
  exact (clean_lyrics_strips_language_code ascii_tables (py "en")
           (py " Hello world ") eq_refl H eq_refl).
Defined.

(** X14 on a world without readable files. *)
Lemma open_failure_returns_False_witness :
  let run := add_lyrics_to_file ascii_tables More.broken_world Sample.path
               None false false [] in
  opens run.2 = [OpenError] ∧
  run = (Return false,
         [EvLog INFO (MsgProcessing Sample.path);
          EvOpen Sample.path OpenError; EvLog ERROR MsgOpenFailure]).
Proof.
  cbv zeta. split; [reflexivity|].
  apply (open_failure_returns_False ascii_tables More.broken_world
           Sample.path None false false []).
  reflexivity.
Defined.

(** X15 on a file with title and artist and no lyrics. *)
Lemma first_lyrics_frame_witness :
  let run := add_lyrics_to_file ascii_tables (Sample.world Sample.plain)
               Sample.path None false false [] in
  (opens run.2 = [Opened (Some Sample.plain)] ∧
   has_USLT Sample.plain = false ∧
   provider_hit run.2 Sample.found_lyrics ∧
   clean_lyrics ascii_tables Sample.found_lyrics ≠ []) ∧
  ∃ ok tags',
    saves run.2 = [(Sample.path, tags', ok)] ∧ run.1 = Return ok ∧
    lyrics_frames tags' =
      [USLT 3 (py "eng") (py "")
         (clean_lyrics ascii_tables Sample.found_lyrics)] ∧
    ∀ k, k ≠ py "USLT::eng" → tags' !! k = Sample.plain !! k.
Proof.
  cbv zeta.
  assert (Hhit : provider_hit
            (add_lyrics_to_file ascii_tables (Sample.world Sample.plain)
               Sample.path None false false []).2 Sample.found_lyrics).
  { right. exists (py "Song", py "Band",
                   HttpResponse 200 (Some (Some Sample.found_lyrics))).
    split; [|reflexivity]. vm_compute. left. }
  split; [split; [reflexivity|split; [reflexivity|split; [exact Hhit|by vm_compute]]]|].
  apply (first_lyrics_frame ascii_tables (Sample.world Sample.plain)
           Sample.path None false false [] (Some Sample.plain)
           Sample.found_lyrics);
    [reflexivity|reflexivity|exact Hhit|by vm_compute].
Defined.

(** X17 on a provider that answers with an attribution line only. *)
Lemma cleaned_empty_not_saved_witness :
  let run := add_lyrics_to_file ascii_tables
               (More.boilerplate_world Sample.plain) Sample.path None false
               false [] in
  (provider_hit run.2 More.boilerplate ∧
   clean_lyrics ascii_tables More.boilerplate = []) ∧
  run.1 = Return false ∧ saves run.2 = [] ∧
  last (logged run.2) = Some MsgCleanedEmpty.
Proof.
  cbv zeta.
  assert (Hhit : provider_hit
            (add_lyrics_to_file ascii_tables
               (More.boilerplate_world Sample.plain) Sample.path None false
               false []).2 More.boilerplate).
  { right. exists (py "Song", py "Band",
                   HttpResponse 200 (Some (Some More.boilerplate))).
    split; [|reflexivity]. vm_compute. left. }
  split; [split; [exact Hhit|reflexivity]|].
  apply (cleaned_empty_not_saved ascii_tables
           (More.boilerplate_world Sample.plain) Sample.path None false false
           [] More.boilerplate); [exact Hhit|reflexivity].
Defined.

(** X18 on a provider that knows no song. *)
Lemma no_lyrics_not_saved_witness :
  let run := add_lyrics_to_file ascii_tables (More.silent_world Sample.plain)
               Sample.path None false false [] in
  (ovh_queries run.2 ≠ [] ∧
   yields_nothing genius_lyrics (genius_queries run.2) = true ∧
   yields_nothing ovh_lyrics (ovh_queries run.2) = true) ∧
  run.1 = Return false ∧ saves run.2 = [] ∧
  last (logged run.2) = Some MsgNoLyrics.
Proof.
  cbv zeta.
  assert (Hasked : ovh_queries
            (add_lyrics_to_file ascii_tables (More.silent_world Sample.plain)
               Sample.path None false false []).2 ≠ []).
  { intros H. apply (f_equal length) in H. vm_compute in H. discriminate H. }
  split; [split; [exact Hasked|split; reflexivity]|].
  apply (no_lyrics_not_saved ascii_tables (More.silent_world Sample.plain)
           Sample.path None false false []);
    [exact Hasked|reflexivity|reflexivity].
Defined.

(** X19 on the one query of the sample file. *)
Lemma queries_come_from_tags_witness :
  let run := add_lyrics_to_file ascii_tables (Sample.world Sample.plain)
               Sample.path None false false [] in
  (opens run.2 = [Opened (Some Sample.plain)] ∧
   (genius_queries run.2).*1 ++ (ovh_queries run.2).*1 =
     [(py "Song", py "Band")]) ∧
  (tag_text Sample.plain (py "TIT2") (py "Song") ∨
   tag_text Sample.plain (py "TALB") (py "Song")) ∧
  (tag_text Sample.plain (py "TPE1") (py "Band") ∨
   tag_text Sample.plain (py "TPE2") (py "Band")).
Proof.
  cbv zeta. split; [split; reflexivity|].
  apply (queries_come_from_tags ascii_tables (Sample.world Sample.plain)
           Sample.path None false false [] (Some Sample.plain)
           (py "Song") (py "Band")); [reflexivity|].
  vm_compute. left.
Defined.

(** X16 on a file whose lyrics frame is the English one. *)
Lemma overwrite_replaces_eng_lyrics_witness :
  let run := add_lyrics_to_file ascii_tables (Sample.world More.with_english)
               Sample.path None false true [] in
  (opens run.2 = [Opened (Some More.with_english)] ∧
   has_USLT (delete (py "USLT::eng") More.with_english) = false ∧
   provider_hit run.2 Sample.found_lyrics ∧
   clean_lyrics ascii_tables Sample.found_lyrics ≠ []) ∧
  ∃ ok tags',
    saves run.2 = [(Sample.path, tags', ok)] ∧ run.1 = Return ok ∧
    lyrics_frames tags' =
      [USLT 3 (py "eng") (py "")
         (clean_lyrics ascii_tables Sample.found_lyrics)].
Proof.
  cbv zeta.
  assert (Hhit : provider_hit
            (add_lyrics_to_file ascii_tables (Sample.world More.with_english)
               Sample.path None false true []).2 Sample.found_lyrics).
  { right. exists (py "Song", py "Band",
                   HttpResponse 200 (Some (Some Sample.found_lyrics))).
    split; [|reflexivity]. vm_compute. left. }
  split; [split; [reflexivity|split; [reflexivity|split; [exact Hhit|by vm_compute]]]|].
  apply (overwrite_replaces_eng_lyrics ascii_tables
           (Sample.world More.with_english) Sample.path None false []
           More.with_english Sample.found_lyrics);
    [reflexivity|reflexivity|exact Hhit|by vm_compute].
Defined.


(** X22 on a directory of notes. *)
Lemma scan_without_mp3_witness :
  (Path.isdir More.notes_disk (py "notes") = true ∧
   no_mp3 ascii_tables (Path.walk More.notes_disk (py "notes")) = true) ∧
  process_path_scan ascii_tables More.notes_disk (py "notes") 4 [] =
  (Return (Some []), [EvLog INFO (MsgQueueing 0 4)]).
Proof.
  split; [split; reflexivity|].
  apply (scan_without_mp3 ascii_tables More.notes_disk (py "notes") 4 []);
    reflexivity.
Defined.

(** X23 on the music directory. *)
Lemma scan_stays_under_root_witness :
  (Sample.music_disk (py "music") = Directory More.music_entries ∧
   forallb well_named More.music_entries = true ∧
   (process_path_scan ascii_tables Sample.music_disk (py "music") 4 []).1 =
     Return (Some [py "music/a.MP3"; py "music/d.mp3"; py "music/sub/b.mp3"])) ∧
  Forall (λ p, py "music" `prefix_of` p)
    [py "music/a.MP3"; py "music/d.mp3"; py "music/sub/b.mp3"].
Proof.
  split; [split; [reflexivity|split; reflexivity]|].
  apply (scan_stays_under_root ascii_tables Sample.music_disk (py "music") 4
           [] More.music_entries); reflexivity.
Defined.
